(** * KPI period resolution and forecast orchestration

    A shallow embedding of [rasa-project/actions/actions.py]: the series
    slicer ([slice_series]), the period resolver ([parse_last_period],
    [filter_period]), the horizon coercion ([ensure_positive_int]) and the
    forecast action ([ActionForecastKPI.run]), with the properties the
    specification states about them.

    Conventions of the model.
    - Python [str] values are [string]s of ASCII characters; [lower],
      [strip], [split] and [int] act on them as Python's do on ASCII text.
    - A raised exception is the [Raise] constructor of [result].
    - pandas timestamps of a monthly series are (year, month) pairs; a
      column of numbers that may hold NaN is a column of [cell]s.
    - What the module only calls and does not define (pandas' date parser,
      Python's [float], the two fitted models) is a section variable. *)

From Stdlib Require Import Bool Arith ZArith QArith Qround Lia List.
From Stdlib Require Import Ascii String Permutation Sorted.
Import ListNotations.

Local Open Scope string_scope.
Local Open Scope Z_scope.

(** ** Python builtins on ASCII strings *)

Module Py.

(** A raised exception, by class. *)
Inductive exn : Type := ValueError.

Inductive result (A : Type) : Type :=
| Return (a : A)
| Raise (e : exn).
Arguments Return {A} a.
Arguments Raise {A} e.

Definition code (c : ascii) : nat := nat_of_ascii c.

(** [str.isspace] on ASCII: TAB..CR, FS..US and the blank. *)
Definition is_space (c : ascii) : bool :=
  let n := code c in
  ((9 <=? n) && (n <=? 13) || (28 <=? n) && (n <=? 32))%nat.

Definition is_digit (c : ascii) : bool :=
  let n := code c in ((48 <=? n) && (n <=? 57))%nat.

Definition is_upper (c : ascii) : bool :=
  let n := code c in ((65 <=? n) && (n <=? 90))%nat.

Definition lower_char (c : ascii) : ascii :=
  if is_upper c then ascii_of_nat (code c + 32) else c.

(** [s.lower()] *)
Fixpoint lower (s : string) : string :=
  match s with
  | EmptyString => EmptyString
  | String c r => String (lower_char c) (lower r)
  end.

Fixpoint lstrip (s : string) : string :=
  match s with
  | EmptyString => EmptyString
  | String c r => if is_space c then lstrip r else s
  end.

Fixpoint rstrip (s : string) : string :=
  match s with
  | EmptyString => EmptyString
  | String c r =>
      match rstrip r with
      | EmptyString => if is_space c then EmptyString else String c EmptyString
      | r' => String c r'
      end
  end.

(** [s.strip()] *)
Definition strip (s : string) : string := rstrip (lstrip s).

(** [s.split()]: the maximal runs of non-blank characters, in order. *)
Fixpoint split (s : string) : list string :=
  match s with
  | EmptyString => []
  | String c r =>
      if is_space c then split r
      else
        match r with
        | EmptyString => [String c EmptyString]
        | String c' _ =>
            if is_space c' then String c EmptyString :: split r
            else
              match split r with
              | w :: ws => String c w :: ws
              | [] => [String c EmptyString]
              end
        end
  end.

(** [s.startswith(p)] *)
Definition startswith (s p : string) : bool := String.prefix p s.

(** [sub in s] for strings. *)
Fixpoint contains (sub s : string) : bool :=
  String.prefix sub s ||
  match s with
  | EmptyString => false
  | String _ r => contains sub r
  end.

(** [s.split(sep)] for a non-empty [sep]: the pieces between the
    occurrences of [sep], scanned left to right without overlap.  [skip]
    counts the characters of a separator still to be passed over. *)
Fixpoint split_on_from (sep : string) (skip : nat) (s : string) : list string :=
  match s with
  | EmptyString => [EmptyString]
  | String c r =>
      match skip with
      | S k => split_on_from sep k r
      | O =>
          if String.prefix sep s
          then EmptyString :: split_on_from sep (String.length sep - 1) r
          else
            match split_on_from sep 0 r with
            | w :: ws => String c w :: ws
            | [] => [String c EmptyString]
            end
      end
  end.

Definition split_on (sep s : string) : list string := split_on_from sep 0 s.

(** [x in xs] for a list of strings. *)
Definition mem (x : string) (xs : list string) : bool :=
  existsb (String.eqb x) xs.

Definition digit_value (c : ascii) : Z := Z.of_nat (code c - 48).

(** The digits of a decimal literal, most significant first; a single
    underscore may separate two digits.  [seen] tells that the previous
    character was a digit. *)
Fixpoint int_digits (acc : Z) (seen : bool) (s : string) : option Z :=
  match s with
  | EmptyString => if seen then Some acc else None
  | String c r =>
      if is_digit c then int_digits (10 * acc + digit_value c) true r
      else if Ascii.eqb c "_" then
        if seen then int_digits acc false r else None
      else None
  end.

(** The blanks [int] skips around an ASCII numeral: TAB..CR and the
    blank, without the separators FS..US that [str.strip] removes. *)
Definition is_c_space (c : ascii) : bool :=
  let n := code c in
  ((9 <=? n) && (n <=? 13) || (n =? 32))%nat.

Fixpoint lstrip_c (s : string) : string :=
  match s with
  | EmptyString => EmptyString
  | String c r => if is_c_space c then lstrip_c r else s
  end.

Fixpoint rstrip_c (s : string) : string :=
  match s with
  | EmptyString => EmptyString
  | String c r =>
      match rstrip_c r with
      | EmptyString => if is_c_space c then EmptyString else String c EmptyString
      | r' => String c r'
      end
  end.

(** The largest number of digits [int] converts
    ([sys.int_info.default_max_str_digits]). *)
Definition max_str_digits : Z := 4300.

Fixpoint digit_count (s : string) : Z :=
  match s with
  | EmptyString => 0
  | String c r => (if is_digit c then 1 else 0) + digit_count r
  end.

(** The digits after the sign: a numeral of more than [max_str_digits]
    digits is refused. *)
Definition int_literal (s : string) : option Z :=
  if max_str_digits <? digit_count s then None
  else int_digits 0 false s.

(** [int(s)] in base ten: [None] stands for [ValueError]. *)
Definition int (s : string) : option Z :=
  match rstrip_c (lstrip_c s) with
  | EmptyString => None
  | String c r =>
      if Ascii.eqb c "-" then option_map Z.opp (int_literal r)
      else if Ascii.eqb c "+" then int_literal r
      else int_literal (String c r)
  end.

Definition digit_char (n : nat) : ascii := ascii_of_nat (48 + n).

(** The decimal digits of [n] in front of [acc]; [fuel] bounds the number
    of digits. *)
Fixpoint digits_of (fuel n : nat) (acc : string) : string :=
  match fuel with
  | O => acc
  | S f =>
      let acc' := String (digit_char (n mod 10)) acc in
      if (n <? 10)%nat then acc' else digits_of f (n / 10) acc'
  end.

(** [str(n)] for a natural number. *)
Definition str_nat (n : nat) : string := digits_of (S n) n EmptyString.

(** [str(z)], which is also how an f-string renders an [int]. *)
Definition str (z : Z) : string :=
  if z <? 0 then String "-" (str_nat (Z.to_nat (- z)))
  else str_nat (Z.to_nat z).

(** An integer in at least two digits, as [%m] renders a month. *)
Definition pad2 (z : Z) : string :=
  if (0 <=? z) && (z <? 10) then String "0" (str z) else str z.

End Py.

Import Py.

(** ** Data model *)

(** A pandas timestamp at month resolution. *)
Record Timestamp : Type := { year : Z; month : Z }.

(** A value of a float column: a number or NaN. *)
Inductive cell : Type :=
| NaN
| Num (q : Q).

(** One row of the monthly frame, columns [ds] and [y]. *)
Record Point : Type := { ds : Timestamp; y : cell }.

Definition Series : Type := list Point.

Definition len {A : Type} (l : list A) : Z := Z.of_nat (List.length l).

Definition is_empty {A : Type} (l : list A) : bool :=
  match l with [] => true | _ :: _ => false end.

(** [DataFrame.tail(n)]: no row for [n = 0], [iloc[-n:]] otherwise. *)
Definition tail {A : Type} (n : Z) (l : list A) : list A :=
  if n =? 0 then []
  else if 0 <? n then skipn (List.length l - Z.to_nat n) l
  else skipn (Z.to_nat (- n)) l.

Definition ts_leb (a b : Timestamp) : bool :=
  (year a <? year b) || ((year a =? year b) && (month a <=? month b)).

Definition ts_max (a b : Timestamp) : Timestamp :=
  if ts_leb a b then b else a.

(** [ts["ds"].max()]; [None] is the NaT of an empty column. *)
Definition max_ds (ts : Series) : option Timestamp :=
  match ts with
  | [] => None
  | p :: r => Some (fold_left (fun m q => ts_max m (ds q)) r (ds p))
  end.

(** [Series.between(lo, hi)], inclusive on both sides. *)
Definition between (lo hi x : Z) : bool := (lo <=? x) && (x <=? hi).

(** [strftime("%Y-%m")] *)
Definition strftime_Ym (t : Timestamp) : string :=
  str (year t) ++ "-" ++ pad2 (month t).

(** ** The period resolver *)

(** [parse_last_period], lines 50-69. *)

Fixpoint find_number (words : list string) : option Z :=
  match words with
  | [] => None
  | token :: rest =>
      match int token with
      | Some n => Some n
      | None => find_number rest
      end
  end.

Definition parse_last_period (period : string) : option Z :=
  let tokens := split (lower period) in
  if negb (mem "last" tokens) then None
  else
    let months :=
      match find_number tokens with
      | Some n => if n =? 0 then 1 else n
      | None => 1
      end in
    let months :=
      if mem "quarter" tokens || mem "quarters" tokens then months * 3
      else if mem "year" tokens || mem "years" tokens then months * 12
      else months in
    Some (Z.max months 1).

(** What [pd.to_datetime(s, errors="raise")] gives for a string: an
    exception, the missing timestamp NaT, or a timestamp. *)
Inductive parsed : Type :=
| ParseError
| NaT
| Stamp (t : Timestamp).

(** A subset of the series with its label. *)
Definition Selection : Type := (Series * string)%type.

(** The shared default of lines 77, 121, 127 and 132. *)
Definition default_window (ts : Series) : Selection :=
  (tail 3 ts, "last " ++ str (Z.min (len ts) 3) ++ " period(s)").

(** Lines 81-85.  [None]: the rule did not return. *)
Definition ytd_rule (ts : Series) (normalized : string) : option Selection :=
  if mem normalized ["ytd"; "year to date"] then
    match max_ds ts with
    | Some latest =>
        let subset := filter (fun p => year (ds p) =? year latest) ts in
        if is_empty subset then None
        else Some (subset, str (year latest) ++ " YTD")
    | None => None
    end
  else None.

(** Lines 87-93. *)
Definition mtd_rule (ts : Series) (normalized : string) : option Selection :=
  if mem normalized ["mtd"; "month to date"] then
    match max_ds ts with
    | Some latest =>
        let subset :=
          filter (fun p => (year (ds p) =? year latest)
                           && (month (ds p) =? month latest)) ts in
        if is_empty subset then None
        else Some (subset, strftime_Ym latest ++ " MTD")
    | None => None
    end
  else None.

(** Lines 95-104. *)
Definition qtd_rule (ts : Series) (normalized : string) : option Selection :=
  if mem normalized ["qtd"; "quarter to date"] then
    match max_ds ts with
    | Some latest =>
        let quarter := (month latest - 1) / 3 + 1 in
        let start_month := (quarter - 1) * 3 + 1 in
        let subset :=
          filter (fun p => (year (ds p) =? year latest)
                           && between start_month (month latest) (month (ds p)))
                 ts in
        if is_empty subset then None
        else Some (subset, str (year latest) ++ "-Q" ++ str quarter ++ " QTD")
    | None => None
    end
  else None.

(** Lines 106-109. *)
Definition last_rule (ts : Series) (normalized : string) : option Selection :=
  match parse_last_period normalized with
  | Some last_months =>
      if last_months =? 0 then None
      else
        let subset := tail last_months ts in
        Some (subset, "last " ++ str (len subset) ++ " period(s)")
  | None => None
  end.

(** [int(s)] where the caller does not catch the [ValueError]. *)
Definition int_or_raise {A : Type} (s : string) (k : Z -> result A) : result A :=
  match int s with
  | Some n => k n
  | None => Raise ValueError
  end.

(** Lines 111-122.  The unpacking of line 112 raises unless the split
    has exactly two pieces. *)
Definition quarter_rule (ts : Series) (normalized : string)
  : option (result Selection) :=
  if startswith normalized "20" && contains "-q" normalized then
    Some
      match split_on "-q" normalized with
      | [year_s; quarter_s] =>
          let quarter_s := strip quarter_s in
          int_or_raise year_s (fun year_n =>
          int_or_raise quarter_s (fun quarter =>
            let start_month := (quarter - 1) * 3 + 1 in
            let end_month := start_month + 2 in
            let subset :=
              filter (fun p => (year (ds p) =? year_n)
                               && between start_month end_month (month (ds p)))
                     ts in
            if is_empty subset then Return (default_window ts)
            else Return (subset, str year_n ++ "-Q" ++ str quarter)))
      | _ => Raise ValueError
      end
  else None.

Section PeriodResolver.

(** pandas' date parser, which the module calls and does not define. *)
Variable to_datetime : string -> parsed.

(** Lines 124-134.  A comparison with the fields of NaT is false on
    every row. *)
Definition date_rule (ts : Series) (normalized : string) : Selection :=
  match to_datetime normalized with
  | ParseError => default_window ts
  | NaT => default_window ts
  | Stamp t =>
      let subset :=
        filter (fun p => (year (ds p) =? year t) && (month (ds p) =? month t))
               ts in
      if is_empty subset then default_window ts
      else (subset, strftime_Ym t)
  end.

(** [filter_period], lines 72-134. *)
Definition filter_period (ts : Series) (period : option string)
  : result Selection :=
  if is_empty ts then Return (ts, "no history available")
  else
    match period with
    | None => Return (default_window ts)
    | Some period =>
        if String.eqb period "" then Return (default_window ts)
        else
          let normalized := lower (strip period) in
          match ytd_rule ts normalized with
          | Some sel => Return sel
          | None =>
          match mtd_rule ts normalized with
          | Some sel => Return sel
          | None =>
          match qtd_rule ts normalized with
          | Some sel => Return sel
          | None =>
          match last_rule ts normalized with
          | Some sel => Return sel
          | None =>
          match quarter_rule ts normalized with
          | Some r => r
          | None => Return (date_rule ts normalized)
          end end end end end
    end.

End PeriodResolver.

(** ** The series slicer *)

(** A calendar date of the history file. *)
Record Date : Type := { d_year : Z; d_month : Z; d_day : Z }.

(** One row of the history file. *)
Record Observation : Type :=
  { date : Date; kpi : string; segment : string; value : Q }.

Definition DataFrame : Type := list Observation.

(** [load_data], lines 27-33, on the rows read from the file: the two
    entity columns are lowercased. *)
Definition load_data (rows : DataFrame) : DataFrame :=
  map (fun o => {| date := date o;
                   kpi := lower (kpi o);
                   segment := lower (segment o);
                   value := value o |}) rows.

Definition date_leb (a b : Date) : bool :=
  (d_year a <? d_year b)
  || ((d_year a =? d_year b)
      && ((d_month a <? d_month b)
          || ((d_month a =? d_month b) && (d_day a <=? d_day b)))).

Fixpoint insert_by_date (o : Observation) (l : DataFrame) : DataFrame :=
  match l with
  | [] => [o]
  | o' :: r =>
      if date_leb (date o) (date o') then o :: l
      else o' :: insert_by_date o r
  end.

(** [sort_values("date")] *)
Definition sort_values_date (df : DataFrame) : DataFrame :=
  fold_right insert_by_date [] df.

(** Months counted from year 0, so that consecutive months are
    consecutive integers. *)
Definition month_index (yr mo : Z) : Z := 12 * yr + (mo - 1).

Definition date_index (d : Date) : Z := month_index (d_year d) (d_month d).

Definition ts_index (t : Timestamp) : Z := month_index (year t) (month t).

(** The month start with a given index. *)
Definition month_start (i : Z) : Timestamp :=
  {| year := i / 12; month := i mod 12 + 1 |}.

Definition Qsum (vs : list Q) : Q := fold_right Qplus 0%Q vs.

(** [.mean()] of one bin: NaN for a bin without rows.  The values are
    read as exact rationals: the rounding of the double arithmetic, and
    with it the order in which the rows are added, is not modelled. *)
Definition mean (vs : list Q) : cell :=
  match vs with
  | [] => NaN
  | _ :: _ => Num (Qred (Qsum vs / inject_Z (len vs)))
  end.

(** The values of the rows dated in the month of index [i]. *)
Definition bin_values (series : DataFrame) (i : Z) : list Q :=
  map value (filter (fun o => date_index (date o) =? i) series).

(** The integers from [lo] to [hi], both included. *)
Definition month_range (lo hi : Z) : list Z :=
  map (fun k => lo + Z.of_nat k) (seq 0 (Z.to_nat (hi - lo + 1))).

(** [set_index("date").resample("MS").mean().reset_index()]: one bin per
    month from the earliest to the latest date of the frame. *)
Definition resample_MS_mean (series : DataFrame) : Series :=
  match series with
  | [] => []
  | o :: r =>
      let lo := fold_left Z.min (map (fun o' => date_index (date o')) r)
                          (date_index (date o)) in
      let hi := fold_left Z.max (map (fun o' => date_index (date o')) r)
                          (date_index (date o)) in
      map (fun i => {| ds := month_start i; y := mean (bin_values series i) |})
          (month_range lo hi)
  end.

(** [slice_series], lines 36-47. *)
Definition slice_series (df : DataFrame) (kpi_name segment_name : string)
  : Series :=
  let series :=
    sort_values_date
      (filter (fun o => String.eqb (kpi o) (lower kpi_name)
                        && String.eqb (segment o) (lower segment_name)) df) in
  if is_empty series then []
  else resample_MS_mean series.

(** ** Horizon coercion *)

(** A Python float: a finite number, an infinity or NaN. *)
Inductive pyfloat : Type :=
| Finite (q : Q)
| Infinity (negative : bool)
| FNaN.

(** The values a slot may hold; [PyOther] is any object [float] rejects
    (a list, a dict). *)
Inductive Any : Type :=
| PyNone
| PyBool (b : bool)
| PyInt (z : Z)
| PyFloat (f : pyfloat)
| PyStr (s : string)
| PyOther.

(** [math.ceil]: raises on an infinity and on NaN ([None]). *)
Definition ceil (f : pyfloat) : option Z :=
  match f with
  | Finite q => Some (Qceiling q)
  | Infinity _ => None
  | FNaN => None
  end.

Section Coercion.

(** [float] of a string and of an integer (rounding to the nearest
    double, [None] when it raises), both builtins. *)
Variable float_of_str : string -> option pyfloat.
Variable float_of_int : Z -> option pyfloat.

(** [float(value)]: [None] when it raises. *)
Definition float (value : Any) : option pyfloat :=
  match value with
  | PyNone => None
  | PyBool b => Some (Finite (if b then 1 else 0))
  | PyInt z => float_of_int z
  | PyFloat f => Some f
  | PyStr s => float_of_str s
  | PyOther => None
  end.

(** [ensure_positive_int], lines 137-142. *)
Definition ensure_positive_int (value : Any) (default : Z) : Z :=
  match float value with
  | None => default
  | Some f =>
      match ceil f with
      | None => default
      | Some number => Z.max number 1
      end
  end.

End Coercion.

(** ** The forecast action *)

Inductive Event : Type := SlotSet (key value : string).

Inductive Backend : Type := ProphetBackend | ArimaBackend.

(** What a run leaves behind: the messages the dispatcher collected and
    the models that were fitted, oldest first. *)
Record World : Type :=
  { messages : list string; fitted : list Backend }.

(** [dispatcher.utter_message(text=...)] *)
Definition utter_message (text : string) (w : World) : World :=
  {| messages := messages w ++ [text]; fitted := fitted w |}.

Definition fit (b : Backend) (w : World) : World :=
  {| messages := messages w; fitted := fitted w ++ [b] |}.

(** The slots of the tracker the action reads. *)
Record Tracker : Type :=
  { slot_kpi : option string;
    slot_segment : option string;
    slot_horizon : Any;
    slot_model : option string }.

(** [slot or fallback] for a slot holding a string or nothing. *)
Definition slot_or (slot : option string) (fallback : string) : string :=
  match slot with
  | None => fallback
  | Some s => if String.eqb s "" then fallback else s
  end.

Section Forecast.

(** The capability flags of lines 14-24. *)
Variable USE_PROPHET USE_ARIMA : bool.

(** The text each fitted model renders (lines 223-254). *)
Variable prophet_text arima_text : Series -> Z -> string -> string -> string.

Variable float_of_str : string -> option pyfloat.
Variable float_of_int : Z -> option pyfloat.

Definition run_prophet_forecast (ts : Series) (horizon : Z)
  (kpi_name segment_name : string) (w : World) : World * string :=
  (fit ProphetBackend w, prophet_text ts horizon kpi_name segment_name).

Definition run_arima_forecast (ts : Series) (horizon : Z)
  (kpi_name segment_name : string) (w : World) : World * string :=
  (fit ArimaBackend w, arima_text ts horizon kpi_name segment_name).

(** Lines 205-220 of [ActionForecastKPI.run]: the choice of the backend
    once the series is at hand. *)
Definition forecast (ts : Series) (horizon : Z)
  (kpi_name segment_name model_slot : string) (w : World)
  : World * list Event :=
  if len ts <? 6 then
    (utter_message "I need at least 6 months of data to forecast reliably." w,
     [])
  else if String.eqb model_slot "prophet" && USE_PROPHET then
    let (w1, forecast_text) :=
      run_prophet_forecast ts horizon kpi_name segment_name w in
    (utter_message forecast_text w1, [])
  else if USE_ARIMA then
    let (w1, forecast_text) :=
      run_arima_forecast ts horizon kpi_name segment_name w in
    (utter_message forecast_text w1,
     [SlotSet "model"
        (if negb (String.eqb model_slot "prophet") then "arima"
         else "prophet_unavailable")])
  else
    (utter_message
       "Forecasting libraries are not available on the server right now." w,
     []).

(** [ActionForecastKPI.run], lines 187-220, on the rows of the history
    file. *)
Definition ActionForecastKPI_run (tracker : Tracker) (rows : DataFrame)
  (w : World) : World * list Event :=
  let kpi_name := lower (slot_or (slot_kpi tracker) "") in
  let segment_name := lower (slot_or (slot_segment tracker) "") in
  let horizon_slot := slot_horizon tracker in
  let model_slot := lower (slot_or (slot_model tracker) "prophet") in
  if String.eqb kpi_name "" || String.eqb segment_name "" then
    (utter_message "I need a KPI and segment before I can run a forecast." w,
     [])
  else
    let horizon :=
      ensure_positive_int float_of_str float_of_int horizon_slot 3 in
    let df := load_data rows in
    let ts := slice_series df kpi_name segment_name in
    forecast ts horizon kpi_name segment_name model_slot w.

End Forecast.

(** ** The query action *)

Definition is_lower_letter (c : ascii) : bool :=
  let n := code c in ((97 <=? n) && (n <=? 122))%nat.

Definition upper_char (c : ascii) : ascii :=
  if is_lower_letter c then ascii_of_nat (code c - 32) else c.

(** [s.upper()] *)
Fixpoint upper (s : string) : string :=
  match s with
  | EmptyString => EmptyString
  | String c r => String (upper_char c) (upper r)
  end.

(** [s.title()]: a letter that follows a letter goes to lower case, every
    other letter to upper case.  [after_letter] tells that the previous
    character was a letter. *)
Fixpoint title_from (after_letter : bool) (s : string) : string :=
  match s with
  | EmptyString => EmptyString
  | String c r =>
      if is_upper c || is_lower_letter c
      then String (if after_letter then lower_char c else upper_char c)
                  (title_from true r)
      else String c (title_from false r)
  end.

Definition title (s : string) : string := title_from false s.

(** [sep.join(parts)] *)
Fixpoint join (sep : string) (parts : list string) : string :=
  match parts with
  | [] => EmptyString
  | [part] => part
  | part :: rest => part ++ sep ++ join sep rest
  end.

(** The slots of the tracker the query action reads. *)
Record QueryTracker : Type :=
  { query_kpi : option string;
    query_segment : option string;
    query_period : option string }.

Section Query.

Variable to_datetime : string -> parsed.

(** How an f-string renders a number with [:.2f]. *)
Variable format_2f : cell -> string.

(** The characters between the segment and the label in line 178. *)
Variable dash : string.

(** One row of the answer, line 176.  [iterrows] hands over a row whose
    [y] is NaN as a row of timestamps, in which [y] is NaT, and the
    format [:.2f] of NaT raises. *)
Definition row_text (p : Point) : result string :=
  match y p with
  | NaN => Raise ValueError
  | Num _ => Return (strftime_Ym (ds p) ++ ": " ++ format_2f (y p))
  end.

(** The texts of the rows in their order; the first row that raises ends
    the loop. *)
Fixpoint rows_text (subset : Series) : result (list string) :=
  match subset with
  | [] => Return []
  | p :: rest =>
      match row_text p with
      | Raise e => Raise e
      | Return text =>
          match rows_text rest with
          | Raise e => Raise e
          | Return texts => Return (text :: texts)
          end
      end
  end.

(** [ActionQueryKPI.run], lines 149-180, on the rows of the history file.
    The series is not empty where line 172 reads its last row. *)
Definition ActionQueryKPI_run (tracker : QueryTracker) (rows : DataFrame)
  (w : World) : result (World * list Event) :=
  let kpi_name := lower (slot_or (query_kpi tracker) "") in
  let segment_name := lower (slot_or (query_segment tracker) "") in
  let period := query_period tracker in
  if String.eqb kpi_name "" || String.eqb segment_name "" then
    Return (utter_message "I need both KPI and segment to look that up." w, [])
  else
    let df := load_data rows in
    let ts := slice_series df kpi_name segment_name in
    match ts with
    | [] =>
        Return
          (utter_message
             ("I could not find any history for " ++ kpi_name ++ " in the "
              ++ segment_name ++ " segment.") w, [])
    | first :: _ =>
        match filter_period to_datetime ts period with
        | Raise e => Raise e
        | Return (subset, label) =>
            if is_empty subset then
              let latest_row := List.last ts first in
              Return
                (utter_message
                   ("I do not have data for the requested period. Latest value: "
                    ++ format_2f (y latest_row) ++ " on "
                    ++ strftime_Ym (ds latest_row) ++ ".") w, [])
            else
              match rows_text subset with
              | Raise e => Raise e
              | Return texts =>
                  let msg := join ", " texts in
                  Return
                    (utter_message
                       (upper kpi_name ++ " for " ++ title segment_name ++ " "
                        ++ dash ++ " " ++ label ++ ": " ++ msg) w, [])
              end
        end
    end.

End Query.

(** ** Vocabulary of the statements *)

(** [sub] is the last [k] rows of [ts]. *)
Definition trailing (k : Z) (ts sub : Series) : Prop :=
  len sub = k /\ exists front, ts = (front ++ sub)%list.

(** The label of a window of [k] trailing rows. *)
Definition window_label (k : Z) : string :=
  "last " ++ str k ++ " period(s)".

(** The six expressions of the to-date rules. *)
Definition to_date_keywords : list string :=
  ["ytd"; "year to date"; "mtd"; "month to date"; "qtd"; "quarter to date"].

(** [p] is a row of [ts] that no row of [ts] is later than. *)
Definition is_latest (ts : Series) (p : Point) : Prop :=
  In p ts /\ forall q, In q ts -> ts_leb (ds q) (ds p) = true.

(** The guards of the rules of lines 81-122 on a normalized expression:
    what the resolver recognizes before it tries a date. *)
Definition is_to_date_keyword (normalized : string) : bool :=
  mem normalized to_date_keywords.

Definition is_last_phrase (normalized : string) : bool :=
  mem "last" (split (lower normalized)).

Definition has_quarter_shape (normalized : string) : bool :=
  startswith normalized "20" && contains "-q" normalized.

Definition recognized (normalized : string) : bool :=
  is_to_date_keyword normalized
  || is_last_phrase normalized
  || has_quarter_shape normalized.

(** The literal shape YYYY-Qn: four digits, a hyphen, the letter and one
    digit. *)
Definition is_quarter_literal (s : string) : bool :=
  match s with
  | String a (String b (String c (String d (String h (String q
      (String n EmptyString)))))) =>
      is_digit a && is_digit b && is_digit c && is_digit d
      && Ascii.eqb h "-"
      && (Ascii.eqb q "q" || Ascii.eqb q "Q")
      && is_digit n
  | _ => false
  end.

(** The rows of a quarter: month in [3n-2, 3n] of year [yr]. *)
Definition in_quarter (yr n : Z) (p : Point) : bool :=
  (year (ds p) =? yr) && (3 * n - 2 <=? month (ds p)) && (month (ds p) <=? 3 * n).

(** The expression [YYYY-Qn], with the letter in either case. *)
Definition quarter_expr (q : ascii) (yr n : Z) : string :=
  str yr ++ String "-" (String q (str n)).

(** The words of a phrase joined by single blanks. *)
Fixpoint unwords (ws : list string) : string :=
  match ws with
  | [] => EmptyString
  | [w] => w
  | w :: r => w ++ String " " (unwords r)
  end.

(** The unit words of a "last N unit" phrase. *)
Definition unit_words : list string :=
  ["month"; "months"; "quarter"; "quarters"; "year"; "years"].

(** The phrase "last", "last N", "last unit" or "last N unit". *)
Definition last_expr (count : option Z) (unit : option string) : string :=
  unwords ("last"
           :: match count with Some n => [str n] | None => [] end
           ++ match unit with Some u => [u] | None => [] end).

(** The count a "last" phrase is read with: 1 when there is none, when
    it is 0, and when its numeral is too long for [int]. *)
Definition effective_count (count : option Z) : Z :=
  match count with
  | Some n =>
      if max_str_digits <? digit_count (str n) then 1
      else if n =? 0 then 1 else n
  | None => 1
  end.

(** Months per unit: 3 for quarters, 12 for years, 1 otherwise. *)
Definition multiplier (unit : option string) : Z :=
  match unit with
  | Some u =>
      if mem u ["quarter"; "quarters"] then 3
      else if mem u ["year"; "years"] then 12
      else 1
  | None => 1
  end.

(** Every character of [s] satisfies [f]. *)
Fixpoint all_chars (f : ascii -> bool) (s : string) : bool :=
  match s with
  | EmptyString => true
  | String c r => f c && all_chars f r
  end.

Definition not_space (c : ascii) : bool := negb (is_space c).

(** A character of a printed integer. *)
Definition is_numeral_char (c : ascii) : bool :=
  is_digit c || Ascii.eqb c "-".

(** A word: not empty, without a blank. *)
Definition is_word (w : string) : bool :=
  negb (String.eqb w "") && all_chars not_space w.

(** A word in lower case. *)
Definition is_lower_word (w : string) : bool :=
  is_word w && String.eqb (lower w) w.

(** A string that [rstrip] leaves as it is and that is not empty. *)
Definition ends_well (s : string) : Prop := rstrip s = s /\ s <> "".

(** A row of an example series. *)
Definition point (yr mo : Z) (v : Q) : Point :=
  {| ds := {| year := yr; month := mo |}; y := Num v |}.

(** The months [months] of year [yr], valued by their number. *)
Definition monthly (yr : Z) (months : list Z) : Series :=
  map (fun mo => point yr mo (inject_Z mo)) months.

(** The checks the resolver makes on the expression [YYYY-qn] before it
    selects the quarter, and the two integers it reads from it. *)
Definition quarter_expr_ok (yr n : Z) : bool :=
  let e := quarter_expr "q" yr n in
  negb (is_to_date_keyword e)
  && negb (is_last_phrase e)
  && has_quarter_shape e
  && match split_on "-q" e with
     | [a; b] =>
         match int a, int (strip b) with
         | Some yr', Some n' => (yr' =? yr) && (n' =? n)
         | _, _ => false
         end
     | _ => false
     end.

(** The months January to August of 2024. *)
Definition series8 : Series := monthly 2024 [1; 2; 3; 4; 5; 6; 7; 8].

(** An observation of the history file is one of [kpi_name] in
    [segment_name], whatever the case of the letters. *)
Definition matches (kpi_name segment_name : string) (o : Observation) : bool :=
  String.eqb (lower (kpi o)) (lower kpi_name)
  && String.eqb (lower (segment o)) (lower segment_name).

(** An observation is dated in the month that starts at [t]. *)
Definition in_month (t : Timestamp) (o : Observation) : bool :=
  (d_year (date o) =? year t) && (d_month (date o) =? month t).

(** The values observed in the month [t] for a KPI and a segment, in the
    order of the file. *)
Definition month_values (rows : DataFrame) (kpi_name segment_name : string)
  (t : Timestamp) : list Q :=
  map value
      (filter (fun o => matches kpi_name segment_name o && in_month t o) rows).

(** [p] is before [q], month by month. *)
Definition before (p q : Point) : Prop := ts_index (ds p) < ts_index (ds q).

Definition observation (yr mo day : Z) (k s : string) (v : Q) : Observation :=
  {| date := {| d_year := yr; d_month := mo; d_day := day |};
     kpi := k; segment := s; value := v |}.

(** A history with readings in January and March 2024 and none in
    February. *)
Definition gap_rows : DataFrame :=
  [observation 2024 3 10 "Revenue" "SMB" 30;
   observation 2024 1 15 "revenue" "smb" 10;
   observation 2024 1 20 "revenue" "smb" 15;
   observation 2024 2 1 "churn" "smb" 9].

(** A date parser for the examples: it reads [YYYY-MM] and [YYYY-MM-DD],
    gives NaT for the empty string and fails on the rest. *)
Definition to_datetime_iso (s : string) : parsed :=
  if String.eqb s "" then NaT
  else
    match split_on "-" s with
    | [ys; ms] | [ys; ms; _] =>
        match int ys, int ms with
        | Some yr, Some mo =>
            if between 1 12 mo then Stamp {| year := yr; month := mo |}
            else ParseError
        | _, _ => ParseError
        end
    | _ => ParseError
    end.

(** A conversion to float for the examples: integers are exact, strings
    are read as decimal integers. *)
Definition float_of_int_exact (z : Z) : option pyfloat :=
  Some (Finite (inject_Z z)).

Definition float_of_str_int (s : string) : option pyfloat :=
  option_map (fun z => Finite (inject_Z z)) (int s).

(** [sub] holds some of the rows of [l], in the order of [l]. *)
Inductive subseq {A : Type} : list A -> list A -> Prop :=
| subseq_nil : subseq [] []
| subseq_skip x sub l : subseq sub l -> subseq sub (x :: l)
| subseq_keep x sub l : subseq sub l -> subseq (x :: sub) (x :: l).

(** A row is dated in the month [t]. *)
Definition in_month_of (t : Timestamp) (p : Point) : bool :=
  (year (ds p) =? year t) && (month (ds p) =? month t).

(** A table whose two entity columns are in lower case. *)
Definition normalized_rows (rows : DataFrame) : DataFrame :=
  filter (fun o => String.eqb (lower (kpi o)) (kpi o)
                   && String.eqb (lower (segment o)) (segment o)) rows.

(** A row without a value: a month that [resample] filled in. *)
Definition is_gap (p : Point) : bool :=
  match y p with NaN => true | Num _ => false end.

(** The answer of the query action for a selection. *)
Definition listing (format_2f : cell -> string) (dash : string)
  (kpi_name segment_name : string) (subset : Series) (label : string)
  : string :=
  upper kpi_name ++ " for " ++ title segment_name ++ " " ++ dash ++ " "
  ++ label ++ ": "
  ++ join ", " (map (fun p => strftime_Ym (ds p) ++ ": " ++ format_2f (y p))
                    subset).

(** A rendering of numbers for the examples: the integer part. *)
Definition format_floor (c : cell) : string :=
  match c with
  | NaN => "nan"
  | Num q => str (Qfloor q)
  end.

(** What a selection is: rows of the series in their order, at least one
    of them, under a label that is not empty. *)
Definition good_selection (ts : Series) (sel : Selection) : Prop :=
  subseq (fst sel) ts /\ fst sel <> [] /\ snd sel <> "".

(** A history of revenue for SMB without a gap: January to March 2024. *)
Definition series_rows : DataFrame :=
  [observation 2024 1 15 "revenue" "smb" 10;
   observation 2024 2 10 "revenue" "smb" 20;
   observation 2024 3 5 "revenue" "smb" 30].

(** The world before a run, and the slots of an example query. *)
Definition empty_world : World := {| messages := []; fitted := [] |}.

Definition revenue_query (period : option string) : QueryTracker :=
  {| query_kpi := Some "Revenue";
     query_segment := Some "SMB";
     query_period := period |}.

(** ** Lists and windows *)

Lemma len_nonneg {A : Type} (l : list A) : 0 <= len l.
Proof. unfold len; lia. Qed.

Lemma is_empty_false {A : Type} (l : list A) : l <> [] -> is_empty l = false.
Proof. destruct l; [congruence | reflexivity]. Qed.

Lemma is_empty_In {A : Type} (l : list A) (x : A) : In x l -> is_empty l = false.
Proof. destruct l; [intros [] | reflexivity]. Qed.

Lemma tail_positive {A : Type} (n : Z) (l : list A) :
  0 < n -> tail n l = skipn (List.length l - Z.to_nat n) l.
Proof.
  intros Hn. unfold tail.
  destruct (Z.eqb_spec n 0) as [-> | _]; [lia |].
  destruct (Z.ltb_spec 0 n); [reflexivity | lia].
Qed.

Lemma len_tail {A : Type} (n : Z) (l : list A) :
  0 < n -> len (tail n l) = Z.min n (len l).
Proof.
  intros Hn. rewrite tail_positive by assumption.
  unfold len. rewrite length_skipn. lia.
Qed.

Lemma tail_trailing (n : Z) (ts : Series) :
  0 < n -> trailing (Z.min n (len ts)) ts (tail n ts).
Proof.
  intros Hn. split; [now apply len_tail |].
  exists (firstn (List.length ts - Z.to_nat n) ts).
  rewrite tail_positive by assumption.
  symmetry; apply firstn_skipn.
Qed.

Lemma default_window_trailing (ts : Series) :
  default_window ts = (tail 3 ts, window_label (Z.min 3 (len ts)))
  /\ trailing (Z.min 3 (len ts)) ts (tail 3 ts).
Proof.
  split; [| apply tail_trailing; lia].
  unfold default_window, window_label. now rewrite Z.min_comm.
Qed.

(** ** The latest timestamp of a series *)

Lemma ts_leb_iff (a b : Timestamp) :
  ts_leb a b = true
  <-> year a < year b \/ (year a = year b /\ month a <= month b).
Proof.
  unfold ts_leb.
  rewrite orb_true_iff, andb_true_iff, Z.ltb_lt, Z.eqb_eq, Z.leb_le.
  reflexivity.
Qed.

Lemma ts_leb_refl (a : Timestamp) : ts_leb a a = true.
Proof. apply ts_leb_iff; lia. Qed.

Lemma ts_leb_trans (a b c : Timestamp) :
  ts_leb a b = true -> ts_leb b c = true -> ts_leb a c = true.
Proof. rewrite !ts_leb_iff; lia. Qed.

Lemma ts_leb_antisym (a b : Timestamp) :
  ts_leb a b = true -> ts_leb b a = true ->
  year a = year b /\ month a = month b.
Proof. rewrite !ts_leb_iff; lia. Qed.

Lemma ts_max_cases (a b : Timestamp) :
  (ts_max a b = a \/ ts_max a b = b)
  /\ ts_leb a (ts_max a b) = true /\ ts_leb b (ts_max a b) = true.
Proof.
  unfold ts_max. destruct (ts_leb a b) eqn:E.
  - auto using ts_leb_refl.
  - repeat split; auto using ts_leb_refl.
    apply ts_leb_iff. destruct (ts_leb_iff a b) as [_ H].
    destruct (Z.lt_total (year a) (year b)) as [Hy | [Hy | Hy]];
      [rewrite H in E by lia; discriminate | | lia].
    destruct (Z.le_gt_cases (month a) (month b));
      [rewrite H in E by lia; discriminate | lia].
Qed.

Lemma fold_ts_max_spec (r : Series) (d : Timestamp) :
  let m := fold_left (fun m q => ts_max m (ds q)) r d in
  (m = d \/ exists p, In p r /\ ds p = m)
  /\ ts_leb d m = true
  /\ forall q, In q r -> ts_leb (ds q) m = true.
Proof.
  revert d. induction r as [| p r IH]; intros d; simpl.
  - repeat split; auto using ts_leb_refl.
  - destruct (IH (ts_max d (ds p))) as (Hin & Hd & Hall).
    destruct (ts_max_cases d (ds p)) as (Hc & Hda & Hpa).
    repeat split.
    + destruct Hin as [-> | (q & Hq & <-)].
      * destruct Hc as [-> | ->]; [now left | right; exists p; auto].
      * right; exists q; auto.
    + eauto using ts_leb_trans.
    + intros q [<- | Hq]; eauto using ts_leb_trans.
Qed.

(** On a non-empty series [max_ds] is the timestamp of a row, and no row
    is later. *)
Lemma max_ds_spec (ts : Series) :
  ts <> [] ->
  exists latest,
    max_ds ts = Some latest
    /\ (exists p, In p ts /\ ds p = latest)
    /\ forall q, In q ts -> ts_leb (ds q) latest = true.
Proof.
  destruct ts as [| p r]; [congruence | intros _].
  destruct (fold_ts_max_spec r (ds p)) as (Hin & Hd & Hall).
  eexists; split; [reflexivity |]. split.
  - destruct Hin as [-> | (q & Hq & <-)]; [exists p | exists q]; simpl; auto.
  - intros q [<- | Hq]; auto.
Qed.

Lemma latest_exists (ts : Series) : ts <> [] -> exists p, is_latest ts p.
Proof.
  intros Hne. destruct (max_ds_spec ts Hne) as (latest & _ & (p & Hp & <-) & Hall).
  exists p; split; auto.
Qed.

(** A mask that holds on every row dated as the latest one keeps the
    latest rows, so the subset is not empty. *)
Lemma latest_filter (ts : Series) (latest : Timestamp) (f : Point -> bool) :
  max_ds ts = Some latest ->
  (forall p, year (ds p) = year latest -> month (ds p) = month latest ->
             f p = true) ->
  is_empty (filter f ts) = false
  /\ forall p, is_latest ts p -> In p (filter f ts).
Proof.
  intros Hmax Hf.
  assert (Hne : ts <> []) by (intros ->; discriminate).
  destruct (max_ds_spec ts Hne) as (l & Hl & (p0 & Hp0 & Hds) & Hall).
  rewrite Hmax in Hl; injection Hl as <-.
  assert (Hkeep : forall p, is_latest ts p -> In p (filter f ts)).
  { intros p [Hp Hlate]. apply filter_In; split; [assumption |].
    specialize (Hlate p0 Hp0). rewrite Hds in Hlate.
    destruct (ts_leb_antisym _ _ (Hall p Hp) Hlate). auto. }
  split; [| assumption].
  apply is_empty_In with p0, Hkeep. split; [assumption |].
  intros q Hq. rewrite Hds. auto.
Qed.

(** ** The to-date rules *)

Lemma ytd_rule_skip (ts : Series) (n : string) :
  mem n ["ytd"; "year to date"] = false -> ytd_rule ts n = None.
Proof. intros H. unfold ytd_rule. now rewrite H. Qed.

Lemma mtd_rule_skip (ts : Series) (n : string) :
  mem n ["mtd"; "month to date"] = false -> mtd_rule ts n = None.
Proof. intros H. unfold mtd_rule. now rewrite H. Qed.

Lemma qtd_rule_skip (ts : Series) (n : string) :
  mem n ["qtd"; "quarter to date"] = false -> qtd_rule ts n = None.
Proof. intros H. unfold qtd_rule. now rewrite H. Qed.

Lemma ytd_rule_returns (ts : Series) (n : string) :
  ts <> [] -> mem n ["ytd"; "year to date"] = true ->
  exists subset label,
    ytd_rule ts n = Some (subset, label)
    /\ subset <> [] /\ forall p, is_latest ts p -> In p subset.
Proof.
  intros Hne Hn. unfold ytd_rule. rewrite Hn.
  destruct (max_ds_spec ts Hne) as (latest & Hmax & _). rewrite Hmax.
  destruct (latest_filter ts latest
              (fun p => year (ds p) =? year latest) Hmax) as (He & Hin).
  { intros p Hy _. now apply Z.eqb_eq. }
  rewrite He. do 2 eexists; split; [reflexivity |]. split; [| exact Hin].
  intros E; rewrite E in He; discriminate.
Qed.

Lemma mtd_rule_returns (ts : Series) (n : string) :
  ts <> [] -> mem n ["mtd"; "month to date"] = true ->
  exists subset label,
    mtd_rule ts n = Some (subset, label)
    /\ subset <> [] /\ forall p, is_latest ts p -> In p subset.
Proof.
  intros Hne Hn. unfold mtd_rule. rewrite Hn.
  destruct (max_ds_spec ts Hne) as (latest & Hmax & _). rewrite Hmax.
  destruct (latest_filter ts latest
              (fun p => (year (ds p) =? year latest)
                        && (month (ds p) =? month latest)) Hmax) as (He & Hin).
  { intros p Hy Hm. apply andb_true_iff; split; now apply Z.eqb_eq. }
  rewrite He. do 2 eexists; split; [reflexivity |]. split; [| exact Hin].
  intros E; rewrite E in He; discriminate.
Qed.

(** The first month of the quarter of month [m] is not after [m]. *)
Lemma quarter_start_le (m : Z) : ((m - 1) / 3 + 1 - 1) * 3 + 1 <= m.
Proof. pose proof (Z.mul_div_le (m - 1) 3). lia. Qed.

Lemma qtd_rule_returns (ts : Series) (n : string) :
  ts <> [] -> mem n ["qtd"; "quarter to date"] = true ->
  exists subset label,
    qtd_rule ts n = Some (subset, label)
    /\ subset <> [] /\ forall p, is_latest ts p -> In p subset.
Proof.
  intros Hne Hn. unfold qtd_rule. rewrite Hn.
  destruct (max_ds_spec ts Hne) as (latest & Hmax & _). rewrite Hmax.
  cbv zeta.
  destruct (latest_filter ts latest
              (fun p => (year (ds p) =? year latest)
                        && between (((month latest - 1) / 3 + 1 - 1) * 3 + 1)
                                   (month latest) (month (ds p))) Hmax)
    as (He & Hin).
  { intros p Hy Hm. unfold between.
    rewrite !andb_true_iff, Z.eqb_eq, !Z.leb_le.
    pose proof (quarter_start_le (month latest)). lia. }
  rewrite He. do 2 eexists; split; [reflexivity |]. split; [| exact Hin].
  intros E; rewrite E in He; discriminate.
Qed.

Section ResolverFacts.

Variable to_datetime : string -> parsed.

(** The resolver on a non-empty series and a non-empty expression. *)
Lemma filter_period_rules (ts : Series) (period : string) :
  ts <> [] -> period <> "" ->
  filter_period to_datetime ts (Some period)
  = let normalized := lower (strip period) in
    match ytd_rule ts normalized with
    | Some sel => Return sel
    | None =>
    match mtd_rule ts normalized with
    | Some sel => Return sel
    | None =>
    match qtd_rule ts normalized with
    | Some sel => Return sel
    | None =>
    match last_rule ts normalized with
    | Some sel => Return sel
    | None =>
    match quarter_rule ts normalized with
    | Some r => r
    | None => Return (date_rule to_datetime ts normalized)
    end end end end end.
Proof.
  intros Hts Hp. unfold filter_period.
  rewrite (is_empty_false ts Hts).
  destruct (String.eqb_spec period ""); [contradiction | reflexivity].
Qed.

(** C10. On a non-empty series each of the six to-date expressions
    (whatever its case and the blanks around it) is answered by its own
    rule with a subset that is not empty and holds every latest row of
    the series, of which there is one: the fall-through of an empty
    subset is never taken. *)
Theorem to_date_keeps_latest (ts : Series) (period : string) :
  ts <> [] ->
  In (lower (strip period)) to_date_keywords ->
  exists subset label,
    filter_period to_datetime ts (Some period) = Return (subset, label)
    /\ (ytd_rule ts (lower (strip period)) = Some (subset, label)
        \/ mtd_rule ts (lower (strip period)) = Some (subset, label)
        \/ qtd_rule ts (lower (strip period)) = Some (subset, label))
    /\ subset <> []
    /\ (forall p, is_latest ts p -> In p subset)
    /\ exists p, is_latest ts p.
Proof.
  intros Hts Hkw.
  assert (Hp : period <> "") by (intros ->; simpl in Hkw; intuition discriminate).
  rewrite (filter_period_rules ts period Hts Hp). cbv zeta.
  pose proof (latest_exists ts Hts) as Hlatest.
  simpl in Hkw.
  destruct Hkw as [E | [E | [E | [E | [E | [E | []]]]]]]; rewrite <- E.
  1, 2: match goal with H : ?t <> [] |- context [ytd_rule ?t ?k] =>
          destruct (ytd_rule_returns t k H eq_refl) as (s & l & -> & Hs & Hin)
        end; exists s, l; auto.
  1, 2: rewrite ytd_rule_skip by reflexivity;
        match goal with H : ?t <> [] |- context [mtd_rule ?t ?k] =>
          destruct (mtd_rule_returns t k H eq_refl) as (s & l & -> & Hs & Hin)
        end; exists s, l; auto 6.
  1, 2: rewrite ytd_rule_skip, mtd_rule_skip by reflexivity;
        match goal with H : ?t <> [] |- context [qtd_rule ?t ?k] =>
          destruct (qtd_rule_returns t k H eq_refl) as (s & l & -> & Hs & Hin)
        end; exists s, l; auto 7.
Qed.

(** C6. With no expression (or the empty string) the resolver returns
    the last [min 3 (len ts)] rows of a non-empty series, labelled
    "last K period(s)" with that K. *)
Theorem resolve_without_expression (ts : Series) :
  ts <> [] ->
  exists subset,
    filter_period to_datetime ts None
    = Return (subset, window_label (Z.min 3 (len ts)))
    /\ filter_period to_datetime ts (Some "")
       = Return (subset, window_label (Z.min 3 (len ts)))
    /\ trailing (Z.min 3 (len ts)) ts subset.
Proof.
  intros Hts. exists (tail 3 ts).
  destruct (default_window_trailing ts) as (Hd & Ht).
  unfold filter_period. rewrite (is_empty_false ts Hts). simpl.
  rewrite Hd. auto.
Qed.

(** The default of the resolver: what it returns without an expression. *)
Lemma filter_period_None (ts : Series) :
  filter_period to_datetime ts None
  = if is_empty ts then Return (ts, "no history available")
    else Return (default_window ts).
Proof. reflexivity. Qed.

(** The fall-through of lines 124-127: an expression on which no guard
    of the earlier rules fires (no to-date keyword, no "last" among its
    words, not starting with "20" while holding "-q") and that the date
    parser does not read as a date resolves, on every series, to the
    subset and the label of a missing expression. *)
Theorem unrecognized_resolves_to_default (ts : Series) (period : string) :
  recognized (lower (strip period)) = false ->
  (forall t, to_datetime (lower (strip period)) <> Stamp t) ->
  filter_period to_datetime ts (Some period)
  = filter_period to_datetime ts None.
Proof.
  intros Hrec Hdate. rewrite filter_period_None.
  unfold filter_period.
  destruct (is_empty ts) eqn:Hts; [reflexivity |].
  destruct (String.eqb_spec period "") as [E | _]; [reflexivity |].
  cbv zeta. set (n := lower (strip period)) in *.
  unfold recognized in Hrec.
  apply orb_false_iff in Hrec as (Hrec & Hq).
  apply orb_false_iff in Hrec as (Hk & Hl).
  unfold is_to_date_keyword, to_date_keywords, mem in Hk. simpl in Hk.
  repeat (apply orb_false_iff in Hk as (? & Hk)).
  rewrite ytd_rule_skip, mtd_rule_skip, qtd_rule_skip
    by (unfold mem; simpl; repeat (apply orb_false_iff; split); auto).
  unfold last_rule, parse_last_period.
  unfold is_last_phrase in Hl. rewrite Hl. simpl.
  unfold quarter_rule. unfold has_quarter_shape in Hq. rewrite Hq.
  unfold date_rule.
  destruct (to_datetime n) as [| | t] eqn:E; try reflexivity.
  now destruct (Hdate t).
Qed.

End ResolverFacts.

(** ** Raising expressions *)

(** C1. The resolver is not total: on a one-row series the expression
    "2024-Qx" passes the test of line 111 and [int("x")] raises at line
    115, whatever the date parser. *)
Theorem filter_period_raises (to_datetime : string -> parsed) :
  filter_period to_datetime [point 2024 1 1] (Some "2024-Qx")
  = Raise ValueError.
Proof. reflexivity. Qed.

(** Line 112 raises as well, when the expression holds "-q" twice. *)
Lemma filter_period_raises_on_unpacking (to_datetime : string -> parsed) :
  filter_period to_datetime [point 2024 1 1] (Some "2024-q1-q2")
  = Raise ValueError.
Proof. reflexivity. Qed.

(** C7. The expression "20 items-quality" is no to-date keyword, has no
    word "last" and is not of the shape YYYY-Qn, and yet it does not
    resolve as a missing expression does: it starts with "20" and holds
    "-q", so line 111 sends it to the quarter rule, where
    [int("20 items")] raises at line 114 before the date parser is
    asked.  Without an expression the same series gives the default
    window. *)
Theorem unrecognized_expression_raises (to_datetime : string -> parsed) :
  let period := "20 items-quality" in
  is_to_date_keyword (lower (strip period)) = false
  /\ is_last_phrase (lower (strip period)) = false
  /\ is_quarter_literal (lower (strip period)) = false
  /\ filter_period to_datetime [point 2024 1 1] (Some period)
     = Raise ValueError
  /\ filter_period to_datetime [point 2024 1 1] None
     = Return ([point 2024 1 1], "last 1 period(s)").
Proof. cbv zeta. repeat split. Qed.

(** The quarter rule is the only place where the resolver raises. *)
Lemma filter_period_raises_only_in_quarter_rule
  (to_datetime : string -> parsed) (ts : Series) (period : option string)
  (e : exn) :
  filter_period to_datetime ts period = Raise e ->
  exists p, period = Some p /\ has_quarter_shape (lower (strip p)) = true.
Proof.
  unfold filter_period. destruct (is_empty ts); [discriminate |].
  destruct period as [p |]; [| discriminate].
  destruct (String.eqb p ""); [discriminate |]. cbv zeta.
  destruct (ytd_rule ts _); [discriminate |].
  destruct (mtd_rule ts _); [discriminate |].
  destruct (qtd_rule ts _); [discriminate |].
  destruct (last_rule ts _); [discriminate |].
  unfold quarter_rule, has_quarter_shape.
  destruct (startswith _ "20" && contains "-q" _) eqn:E; [| discriminate].
  intros _. exists p; auto.
Qed.

(** ** Horizon coercion *)

Section CoercionFacts.

Variable float_of_str : string -> option pyfloat.
Variable float_of_int : Z -> option pyfloat.

(** C9. With the default 3 the coercion returns an integer that is at
    least 1 for every slot value: the ceiling of a finite number, raised
    to 1 when it is below; 3 when [float] or [math.ceil] raises, as they
    do on a missing value, on a string that is no number, on an infinity
    and on NaN. *)
Theorem horizon_coercion (value : Any) :
  let horizon := ensure_positive_int float_of_str float_of_int value 3 in
  let number := float float_of_str float_of_int value in
  1 <= horizon
  /\ (forall q, number = Some (Finite q) -> horizon = Z.max (Qceiling q) 1)
  /\ (number = None -> horizon = 3)
  /\ (forall f, number = Some f -> ceil f = None -> horizon = 3)
  /\ ensure_positive_int float_of_str float_of_int PyNone 3 = 3.
Proof.
  unfold ensure_positive_int. cbv zeta. repeat split.
  - destruct (float float_of_str float_of_int value) as [f |]; [| lia].
    destruct (ceil f); lia.
  - intros q ->. reflexivity.
  - intros ->. reflexivity.
  - intros f -> ->. reflexivity.
Qed.

End CoercionFacts.

(** ** The forecast action *)

Section ForecastFacts.

Variable USE_PROPHET USE_ARIMA : bool.
Variable prophet_text arima_text : Series -> Z -> string -> string -> string.

(** C4. A series of fewer than 6 rows gets the insufficient-history
    message and no event, and no model is fitted, whatever the flags, the
    horizon and the requested model. *)
Theorem forecast_insufficient_history (ts : Series) (horizon : Z)
  (kpi_name segment_name model_slot : string) (w : World) :
  len ts < 6 ->
  forecast USE_PROPHET USE_ARIMA prophet_text arima_text
           ts horizon kpi_name segment_name model_slot w
  = (utter_message "I need at least 6 months of data to forecast reliably." w,
     [])
  /\ fitted (fst (forecast USE_PROPHET USE_ARIMA prophet_text arima_text
                           ts horizon kpi_name segment_name model_slot w))
     = fitted w.
Proof.
  intros Hlen. unfold forecast.
  destruct (Z.ltb_spec (len ts) 6); [| lia]. auto.
Qed.

(** C5. With Prophet missing and ARIMA present, on a series of at least
    6 rows: a request for "prophet" sets the slot to "prophet_unavailable"
    (and not to "arima"), a request for "arima" sets it to "arima"; both
    fit the ARIMA model and no other. *)
Theorem forecast_arima_only (ts : Series) (horizon : Z)
  (kpi_name segment_name : string) (w : World) :
  6 <= len ts ->
  let run model_slot :=
    forecast false true prophet_text arima_text
             ts horizon kpi_name segment_name model_slot w in
  snd (run "prophet") = [SlotSet "model" "prophet_unavailable"]
  /\ snd (run "prophet") <> [SlotSet "model" "arima"]
  /\ snd (run "arima") = [SlotSet "model" "arima"]
  /\ fitted (fst (run "prophet")) = (fitted w ++ [ArimaBackend])%list
  /\ fitted (fst (run "arima")) = (fitted w ++ [ArimaBackend])%list.
Proof.
  intros Hlen run. unfold run, forecast.
  destruct (Z.ltb_spec (len ts) 6); [lia |]. simpl.
  repeat split; discriminate.
Qed.

End ForecastFacts.

(** ** Words and numerals *)

Lemma all_chars_impl (f g : ascii -> bool) (s : string) :
  (forall c, f c = true -> g c = true) ->
  all_chars f s = true -> all_chars g s = true.
Proof.
  intros Hfg. induction s as [| c r IH]; simpl; [reflexivity |].
  rewrite !andb_true_iff. intros [Hc Hr]. auto.
Qed.

Lemma all_chars_app (f : ascii -> bool) (a b : string) :
  all_chars f (a ++ b) = all_chars f a && all_chars f b.
Proof.
  induction a as [| c r IH]; simpl; [reflexivity |].
  now rewrite IH, andb_assoc.
Qed.

(** Two strings that a character test tells apart are different. *)
Lemma all_chars_eqb (f : ascii -> bool) (s w : string) :
  all_chars f s = true -> all_chars f w = false -> String.eqb w s = false.
Proof.
  intros Hs Hw. destruct (String.eqb_spec w s) as [-> | _]; [| reflexivity].
  congruence.
Qed.

Lemma numeral_char_facts (c : ascii) :
  is_numeral_char c = true ->
  not_space c = true /\ lower_char c = c.
Proof.
  destruct c as [[] [] [] [] [] [] [] []]; vm_compute; intuition congruence.
Qed.

Lemma digit_is_numeral (c : ascii) : is_digit c = true -> is_numeral_char c = true.
Proof. unfold is_numeral_char. now intros ->. Qed.

Lemma digit_char_facts (d : nat) :
  (d < 10)%nat ->
  is_digit (digit_char d) = true /\ digit_value (digit_char d) = Z.of_nat d.
Proof.
  intros Hd.
  do 10 (destruct d as [| d]; [split; reflexivity |]). lia.
Qed.

Lemma lower_fixed (s : string) :
  all_chars (fun c => Ascii.eqb (lower_char c) c) s = true -> lower s = s.
Proof.
  induction s as [| c r IH]; simpl; [reflexivity |].
  rewrite andb_true_iff, Ascii.eqb_eq. intros [-> Hr]. now rewrite IH.
Qed.

Lemma append_empty_r (s : string) : s ++ "" = s.
Proof. induction s as [| c r IH]; simpl; [reflexivity | now rewrite IH]. Qed.

Lemma lower_app (a b : string) : lower (a ++ b) = lower a ++ lower b.
Proof. induction a as [| c r IH]; simpl; [reflexivity | now rewrite IH]. Qed.

Lemma is_word_cons (w : string) :
  is_word w = true ->
  exists c r, w = String c r /\ is_space c = false
              /\ all_chars not_space r = true.
Proof.
  unfold is_word. destruct w as [| c r]; [discriminate |]. simpl.
  unfold not_space at 1. rewrite andb_true_iff, negb_true_iff.
  intros [Hc Hr]. eauto.
Qed.

(** ** [split] and [strip] on phrases *)

(** A run of non-blank characters in front of the end of the string or of
    a blank is the first piece of the split. *)
Lemma split_run (c : ascii) (r rest : string) :
  is_space c = false -> all_chars not_space r = true ->
  (rest = "" \/ exists s, rest = String " " s) ->
  split (String c (r ++ rest)) = String c r :: split rest.
Proof.
  intros Hc Hr Hrest. revert c Hc.
  induction r as [| c' r' IH]; intros c Hc.
  - simpl. rewrite Hc.
    destruct Hrest as [-> | (s & ->)]; reflexivity.
  - simpl in Hr. apply andb_true_iff in Hr as [Hc' Hr'].
    unfold not_space in Hc'. apply negb_true_iff in Hc'.
    specialize (IH Hr' c' Hc').
    change (String c (String c' r' ++ rest))
      with (String c (String c' (r' ++ rest))).
    cbn [split]. rewrite Hc, Hc'.
    cbn [split] in IH. rewrite Hc' in IH. rewrite IH. reflexivity.
Qed.

Lemma split_unwords (ws : list string) :
  forallb is_word ws = true -> split (unwords ws) = ws.
Proof.
  induction ws as [| w r IH]; [reflexivity |].
  cbn [forallb]. rewrite andb_true_iff. intros [Hw Hr].
  destruct (is_word_cons w Hw) as (c & t & -> & Hc & Ht).
  destruct r as [| w' r'].
  - cbn [unwords]. rewrite <- (append_empty_r t) at 1.
    rewrite (split_run c t "" Hc Ht) by auto. reflexivity.
  - change (unwords (String c t :: w' :: r'))
      with (String c (t ++ String " " (unwords (w' :: r')))).
    rewrite (split_run c t _ Hc Ht) by eauto.
    cbn [split]. change (is_space " ") with true. cbn iota.
    now rewrite (IH Hr).
Qed.

Lemma ends_well_cons (c : ascii) (s : string) :
  ends_well s -> ends_well (String c s).
Proof.
  intros [Hs Hne]. split; [| discriminate].
  simpl. rewrite Hs. destruct s; [congruence | reflexivity].
Qed.

Lemma ends_well_app (a b : string) : ends_well b -> ends_well (a ++ b).
Proof.
  intros Hb. induction a as [| c r IH]; [assumption |].
  simpl. now apply ends_well_cons.
Qed.

Lemma ends_well_word (w : string) : is_word w = true -> ends_well w.
Proof.
  intros Hw. destruct (is_word_cons w Hw) as (c & r & -> & Hc & Hr).
  clear Hw. revert c Hc. induction r as [| c' r' IH]; intros c Hc.
  - split; [| discriminate]. simpl. now rewrite Hc.
  - simpl in Hr. apply andb_true_iff in Hr as [Hc' Hr'].
    unfold not_space in Hc'. apply negb_true_iff in Hc'.
    apply ends_well_cons. auto.
Qed.

Lemma ends_well_unwords (w : string) (ws : list string) :
  forallb is_word (w :: ws) = true -> ends_well (unwords (w :: ws)).
Proof.
  revert w. induction ws as [| w' r IH]; intros w.
  - cbn [forallb]. rewrite andb_true_r. apply ends_well_word.
  - cbn [forallb]. rewrite andb_true_iff. intros [Hw Hr].
    change (unwords (w :: w' :: r))
      with (w ++ String " " (unwords (w' :: r))).
    apply ends_well_app, ends_well_cons, IH, Hr.
Qed.

Lemma strip_unwords (ws : list string) :
  forallb is_word ws = true -> strip (unwords ws) = unwords ws.
Proof.
  destruct ws as [| w r]; [reflexivity |]. intros Hws.
  pose proof (ends_well_unwords w r Hws) as [Hr _].
  cbn [forallb] in Hws. apply andb_true_iff in Hws as [Hw _].
  destruct (is_word_cons w Hw) as (c & t & -> & Hc & _).
  unfold strip.
  assert (Hl : lstrip (unwords (String c t :: r)) = unwords (String c t :: r)).
  { destruct r; cbn [unwords]; simpl; now rewrite Hc. }
  now rewrite Hl.
Qed.

Lemma lower_unwords (ws : list string) :
  forallb (fun w => String.eqb (lower w) w) ws = true ->
  lower (unwords ws) = unwords ws.
Proof.
  induction ws as [| w r IH]; [reflexivity |].
  cbn [forallb]. rewrite andb_true_iff, String.eqb_eq. intros [Hw Hr].
  destruct r as [| w' r']; [exact Hw |].
  change (unwords (w :: w' :: r'))
    with (w ++ String " " (unwords (w' :: r'))).
  rewrite lower_app. cbn [lower]. rewrite Hw, (IH Hr). reflexivity.
Qed.

Lemma is_lower_word_forallb (ws : list string) :
  forallb is_lower_word ws = true ->
  forallb is_word ws = true
  /\ forallb (fun w => String.eqb (lower w) w) ws = true.
Proof.
  induction ws as [| w r IH]; [auto |].
  cbn [forallb]. unfold is_lower_word at 1.
  rewrite !andb_true_iff. intros [[Hw Hl] Hr].
  destruct (IH Hr). auto.
Qed.

(** A phrase of lower-case words is its own normal form, and splits into
    its words. *)
Lemma normalized_unwords (ws : list string) :
  forallb is_lower_word ws = true ->
  lower (strip (unwords ws)) = unwords ws
  /\ split (lower (unwords ws)) = ws.
Proof.
  intros Hws. destruct (is_lower_word_forallb ws Hws) as [Hw Hl].
  rewrite strip_unwords, lower_unwords, split_unwords by assumption. auto.
Qed.

(** ** Printed integers *)

Lemma digits_of_all_digits (fuel n : nat) (rest : string) :
  all_chars is_digit rest = true ->
  all_chars is_digit (digits_of fuel n rest) = true.
Proof.
  revert n rest. induction fuel as [| f IH]; intros n rest Hrest; [assumption |].
  assert (Hd : all_chars is_digit (String (digit_char (n mod 10)) rest) = true).
  { cbn [all_chars]. rewrite Hrest, andb_true_r.
    apply digit_char_facts, Nat.mod_upper_bound. lia. }
  cbn [digits_of]. cbv zeta.
  destruct (n <? 10)%nat; [exact Hd | now apply IH].
Qed.

Lemma digits_of_not_empty (fuel n : nat) (rest : string) :
  rest <> "" -> digits_of fuel n rest <> "".
Proof.
  revert n rest. induction fuel as [| f IH]; intros n rest Hrest; [assumption |].
  cbn [digits_of]. cbv zeta.
  destruct (n <? 10)%nat; [discriminate | apply IH; discriminate].
Qed.

Lemma str_nat_not_empty (n : nat) : str_nat n <> "".
Proof.
  unfold str_nat. cbn [digits_of]. cbv zeta.
  destruct (n <? 10)%nat; [discriminate | apply digits_of_not_empty; discriminate].
Qed.

(** Reading back the digits that [digits_of] printed. *)
Lemma int_digits_digits_of (fuel n : nat) (rest : string) (seen : bool) :
  (n < fuel)%nat ->
  int_digits 0 seen (digits_of fuel n rest)
  = int_digits (Z.of_nat n) true rest.
Proof.
  revert n rest seen.
  induction fuel as [| f IH]; intros n rest seen Hn; [lia |].
  cbn [digits_of]. cbv zeta.
  destruct (digit_char_facts (n mod 10)) as [Hd Hv];
    [apply Nat.mod_upper_bound; lia |].
  destruct (Nat.ltb_spec n 10) as [Hlt | Hge].
  - cbn [int_digits]. rewrite Hd, Hv, Nat.mod_small by assumption.
    f_equal.
  - rewrite IH.
    + cbn [int_digits]. rewrite Hd, Hv. f_equal.
      pose proof (Nat.div_mod_eq n 10). lia.
    + pose proof (Nat.div_lt n 10). lia.
Qed.

Lemma int_digits_str_nat (n : nat) :
  int_digits 0 false (str_nat n) = Some (Z.of_nat n).
Proof. unfold str_nat. rewrite int_digits_digits_of by lia. reflexivity. Qed.

Lemma str_nat_numeral (n : nat) : all_chars is_numeral_char (str_nat n) = true.
Proof.
  apply all_chars_impl with is_digit; [exact digit_is_numeral |].
  now apply digits_of_all_digits.
Qed.

Lemma str_numeral (z : Z) : all_chars is_numeral_char (str z) = true.
Proof.
  unfold str. destruct (z <? 0); [| apply str_nat_numeral].
  cbn [all_chars]. rewrite str_nat_numeral. reflexivity.
Qed.

Lemma str_not_empty (z : Z) : str z <> "".
Proof.
  unfold str. destruct (z <? 0); [discriminate | apply str_nat_not_empty].
Qed.

(** A printed integer is a word in lower case. *)
Lemma str_lower_word (z : Z) : is_lower_word (str z) = true.
Proof.
  pose proof (str_numeral z) as Hn. pose proof (str_not_empty z) as Hne.
  unfold is_lower_word, is_word.
  rewrite !andb_true_iff, negb_true_iff, String.eqb_neq, String.eqb_eq.
  repeat split; [assumption | |].
  - apply all_chars_impl with is_numeral_char; [| assumption].
    intros c Hc. apply numeral_char_facts, Hc.
  - apply lower_fixed, all_chars_impl with is_numeral_char; [| assumption].
    intros c Hc. apply Ascii.eqb_eq, numeral_char_facts, Hc.
Qed.

Lemma digit_not_sign (c : ascii) :
  is_digit c = true -> Ascii.eqb c "-" = false /\ Ascii.eqb c "+" = false.
Proof.
  destruct c as [[] [] [] [] [] [] [] []]; vm_compute; intuition congruence.
Qed.

Lemma numeral_char_not_c_space (c : ascii) :
  is_numeral_char c = true -> is_c_space c = false.
Proof.
  destruct c as [[] [] [] [] [] [] [] []]; vm_compute; intuition congruence.
Qed.

(** [int] finds no blank to skip around a printed integer. *)
Lemma strip_c_numeral (s : string) :
  all_chars is_numeral_char s = true -> rstrip_c (lstrip_c s) = s.
Proof.
  intros Hs.
  assert (Hl : lstrip_c s = s).
  { destruct s as [| c r]; [reflexivity |]. cbn [all_chars] in Hs.
    apply andb_true_iff in Hs as [Hc _]. cbn [lstrip_c].
    now rewrite (numeral_char_not_c_space c Hc). }
  rewrite Hl. clear Hl.
  induction s as [| c r IH]; [reflexivity |].
  cbn [all_chars] in Hs. apply andb_true_iff in Hs as [Hc Hr].
  cbn [rstrip_c]. rewrite (IH Hr), (numeral_char_not_c_space c Hc).
  destruct r; reflexivity.
Qed.

(** [int(str(z)) == z], unless the numeral is too long for [int]. *)
Lemma int_str (z : Z) :
  int (str z)
  = if max_str_digits <? digit_count (str z) then None else Some z.
Proof.
  unfold int. rewrite (strip_c_numeral _ (str_numeral z)).
  unfold str. destruct (Z.ltb_spec z 0) as [Hneg | Hpos].
  - change (Ascii.eqb "-" "-") with true. cbv iota.
    cbn [digit_count]. change (is_digit "-") with false. cbv iota.
    rewrite Z.add_0_l. unfold int_literal.
    destruct (max_str_digits <? digit_count _); [reflexivity |].
    rewrite int_digits_str_nat. cbn [option_map]. f_equal. lia.
  - pose proof (int_digits_str_nat (Z.to_nat z)) as Hi.
    pose proof (str_nat_not_empty (Z.to_nat z)) as Hne.
    pose proof (digits_of_all_digits (S (Z.to_nat z)) (Z.to_nat z) ""
                  eq_refl) as Hd.
    fold (str_nat (Z.to_nat z)) in Hd.
    destruct (str_nat (Z.to_nat z)) as [| c r]; [congruence |].
    cbn [all_chars] in Hd. apply andb_true_iff in Hd as [Hc _].
    destruct (digit_not_sign c Hc) as [-> ->].
    unfold int_literal.
    destruct (max_str_digits <? digit_count _); [reflexivity |].
    rewrite Hi. f_equal. lia.
Qed.

(** A printed integer is none of the words a character test rejects. *)
Lemma str_is_not (z : Z) (w : string) :
  all_chars is_numeral_char w = false -> String.eqb w (str z) = false.
Proof. intros Hw. apply all_chars_eqb with is_numeral_char; auto using str_numeral. Qed.

(** ** "last N unit" phrases *)

(** Evaluate the comparisons of two string literals in the goal. *)
Ltac eval_string_tests :=
  repeat match goal with
  | |- context [String.eqb ?a ?b] =>
      let v := eval vm_compute in (String.eqb a b) in
      lazymatch v with
      | true => change (String.eqb a b) with true
      | false => change (String.eqb a b) with false
      end
  end.

Lemma last_words_lower (count : option Z) (unit : option string) :
  (forall u, unit = Some u -> In u unit_words) ->
  forallb is_lower_word
    ("last" :: match count with Some n => [str n] | None => [] end
            ++ match unit with Some u => [u] | None => [] end) = true.
Proof.
  intros Hu.
  assert (Hunit : forallb is_lower_word
                    match unit with Some u => [u] | None => [] end = true).
  { destruct unit as [u |]; [| reflexivity].
    specialize (Hu u eq_refl). simpl in Hu.
    destruct Hu as [<- | [<- | [<- | [<- | [<- | [<- | []]]]]]]; reflexivity. }
  change (forallb is_lower_word ("last" :: ?l)) with (forallb is_lower_word l).
  rewrite forallb_app, Hunit, andb_true_r.
  destruct count; cbn [forallb]; rewrite ?str_lower_word; reflexivity.
Qed.

(** The number a "last" phrase carries: the printed count, if there is
    one and [int] reads it. *)
Lemma find_number_last_words (count : option Z) (unit : option string) :
  (forall u, unit = Some u -> In u unit_words) ->
  find_number
    ("last" :: match count with Some n => [str n] | None => [] end
            ++ match unit with Some u => [u] | None => [] end)
  = match count with
    | Some n => if max_str_digits <? digit_count (str n) then None else Some n
    | None => None
    end.
Proof.
  intros Hu. cbn [find_number].
  change (int "last") with (@None Z). cbv iota.
  assert (Hunit : find_number match unit with Some u => [u] | None => [] end
                  = None).
  { destruct unit as [u |]; [| reflexivity].
    specialize (Hu u eq_refl). simpl in Hu.
    destruct Hu as [<- | [<- | [<- | [<- | [<- | [<- | []]]]]]]; reflexivity. }
  destruct count as [n |]; cbn [app find_number]; [| exact Hunit].
  rewrite int_str.
  destruct (max_str_digits <? digit_count (str n)); [exact Hunit | reflexivity].
Qed.

(** A word that is no numeral is among the words of the phrase exactly
    when it is "last" or the unit. *)
Lemma mem_last_words (w : string) (count : option Z) (unit : option string) :
  all_chars is_numeral_char w = false ->
  mem w ("last" :: match count with Some n => [str n] | None => [] end
                ++ match unit with Some u => [u] | None => [] end)
  = String.eqb w "last"
    || match unit with Some u => String.eqb w u | None => false end.
Proof.
  intros Hw. unfold mem. cbn [existsb]. f_equal.
  destruct count as [n |]; cbn [app existsb]; rewrite ?(str_is_not n w Hw);
    destruct unit; cbn [existsb]; now rewrite ?orb_false_r.
Qed.

Lemma parse_last_period_last_expr (count : option Z) (unit : option string) :
  (forall u, unit = Some u -> In u unit_words) ->
  parse_last_period (last_expr count unit)
  = Some (Z.max (effective_count count * multiplier unit) 1).
Proof.
  intros Hu. unfold parse_last_period, last_expr.
  rewrite (proj2 (normalized_unwords _ (last_words_lower count unit Hu))).
  rewrite find_number_last_words by assumption.
  rewrite !mem_last_words by reflexivity.
  assert (Hmonths : match match count with
                          | Some n =>
                              if max_str_digits <? digit_count (str n)
                              then None else Some n
                          | None => None
                          end with
                    | Some n => if n =? 0 then 1 else n
                    | None => 1
                    end = effective_count count).
  { unfold effective_count. destruct count as [n |]; [| reflexivity].
    destruct (max_str_digits <? digit_count (str n)); reflexivity. }
  rewrite Hmonths. clear Hmonths.
  generalize (effective_count count). intros m.
  unfold multiplier, mem.
  destruct unit as [u |].
  - specialize (Hu u eq_refl). simpl in Hu.
    destruct Hu as [<- | [<- | [<- | [<- | [<- | [<- | []]]]]]];
      cbn [existsb]; eval_string_tests; cbn [negb orb];
      rewrite ?Z.mul_1_r; reflexivity.
  - eval_string_tests. cbn [negb orb]. rewrite ?Z.mul_1_r. reflexivity.
Qed.

Lemma last_expr_not_keyword (count : option Z) (unit : option string) :
  last_expr count unit <> ""
  /\ is_to_date_keyword (last_expr count unit) = false.
Proof.
  assert (H : exists r, last_expr count unit = String "l" r).
  { unfold last_expr. destruct count, unit; cbn [app unwords]; eexists;
      reflexivity. }
  destruct H as (r & ->). split; [discriminate | reflexivity].
Qed.

Lemma keyword_rules_skip (ts : Series) (n : string) :
  is_to_date_keyword n = false ->
  ytd_rule ts n = None /\ mtd_rule ts n = None /\ qtd_rule ts n = None.
Proof.
  unfold is_to_date_keyword, to_date_keywords, mem. cbn [existsb].
  intros Hk. repeat (apply orb_false_iff in Hk as (? & Hk)).
  repeat split;
    [apply ytd_rule_skip | apply mtd_rule_skip | apply qtd_rule_skip];
    unfold mem; cbn [existsb]; repeat (apply orb_false_iff; split); auto.
Qed.

Section LastPhrase.

Variable to_datetime : string -> parsed.

(** C8. On a non-empty series an expression that normalizes to "last",
    "last N", "last unit" or "last N unit", with N an integer and the
    unit one of month(s), quarter(s), year(s), resolves to the last K
    rows labelled "last K period(s)", where
    K = min (len ts) (max 1 (N * m)), m is 3 for quarters, 12 for years
    and 1 otherwise, and N counts as 1 when it is absent, when it is 0
    and when it is written with more than 4300 digits. *)
Theorem resolve_last_phrase (ts : Series) (period : string)
  (count : option Z) (unit : option string) :
  ts <> [] ->
  lower (strip period) = last_expr count unit ->
  (forall u, unit = Some u -> In u unit_words) ->
  let n := effective_count count in
  let k := Z.min (len ts) (Z.max 1 (n * multiplier unit)) in
  exists subset,
    filter_period to_datetime ts (Some period)
    = Return (subset, window_label k)
    /\ trailing k ts subset.
Proof.
  intros Hts Hnorm Hu n k.
  destruct (last_expr_not_keyword count unit) as [Hne Hkw].
  assert (Hp : period <> "") by (intros ->; apply Hne; now rewrite <- Hnorm).
  rewrite (filter_period_rules to_datetime ts period Hts Hp). cbv zeta.
  rewrite Hnorm.
  destruct (keyword_rules_skip ts _ Hkw) as (-> & -> & ->).
  unfold last_rule. rewrite parse_last_period_last_expr by assumption.
  fold n. set (m := Z.max (n * multiplier unit) 1).
  assert (Hm : 0 < m) by (unfold m; lia).
  destruct (Z.eqb_spec m 0); [lia |].
  assert (Hk : Z.min m (len ts) = k) by (unfold k, m; lia).
  exists (tail m ts). split.
  - rewrite len_tail, Hk by assumption. reflexivity.
  - rewrite <- Hk. now apply tail_trailing.
Qed.

(** With the count 0 the resolver reads the phrase as if it had none. *)
Lemma resolve_last_zero_quarters :
  filter_period to_datetime series8 (Some "last 0 quarters")
  = Return (tail 3 series8, "last 3 period(s)").
Proof. reflexivity. Qed.

End LastPhrase.

(** C8 as the specification words it fails for the count 0: for
    "last 0 quarters" on eight rows it asks for
    min 8 (max 1 (0 * 3)) = 1 row, and no date parser makes the resolver
    return one row. *)
Lemma last_zero_quarters_counterexample :
  ~ exists to_datetime subset,
      filter_period to_datetime series8
                    (Some (last_expr (Some 0) (Some "quarters")))
      = Return (subset,
                window_label (Z.min (len series8)
                                    (Z.max 1 (0 * multiplier (Some "quarters"))))).
Proof.
  intros (to_datetime & subset & H).
  change (last_expr (Some 0) (Some "quarters")) with "last 0 quarters" in H.
  rewrite resolve_last_zero_quarters in H. discriminate H.
Qed.

(** ** Quarter expressions *)

Lemma in_month_range (lo hi x : Z) : lo <= x <= hi -> In x (month_range lo hi).
Proof.
  intros Hx. unfold month_range. apply in_map_iff.
  exists (Z.to_nat (x - lo)). split; [lia | apply in_seq; lia].
Qed.

(** Every expression [20YY-qn] passes the checks of [quarter_expr_ok]:
    by evaluation of the thousand cases. *)
Lemma quarter_expr_ok_all :
  forallb (fun yr => forallb (quarter_expr_ok yr) (month_range 0 9))
          (month_range 2000 2099) = true.
Proof. vm_compute. reflexivity. Qed.

Lemma quarter_expr_checks (yr n : Z) :
  2000 <= yr <= 2099 -> 0 <= n <= 9 -> quarter_expr_ok yr n = true.
Proof.
  intros Hy Hn. pose proof quarter_expr_ok_all as H.
  rewrite forallb_forall in H.
  specialize (H yr (in_month_range _ _ _ Hy)).
  rewrite forallb_forall in H. apply H, in_month_range, Hn.
Qed.

(** The mask of lines 116-118 is the quarter [n] of year [yr]. *)
Lemma quarter_mask (yr n : Z) (ts : Series) :
  filter (fun p => (year (ds p) =? yr)
                   && between ((n - 1) * 3 + 1) ((n - 1) * 3 + 1 + 2)
                              (month (ds p))) ts
  = filter (in_quarter yr n) ts.
Proof.
  apply filter_ext. intros p. unfold in_quarter, between.
  replace ((n - 1) * 3 + 1 + 2) with (3 * n) by lia.
  replace ((n - 1) * 3 + 1) with (3 * n - 2) by lia.
  now rewrite andb_assoc.
Qed.

Lemma quarter_rule_on_expr (ts : Series) (yr n : Z) :
  2000 <= yr <= 2099 -> 0 <= n <= 9 ->
  let e := quarter_expr "q" yr n in
  is_to_date_keyword e = false
  /\ last_rule ts e = None
  /\ quarter_rule ts e
     = Some (if is_empty (filter (in_quarter yr n) ts)
             then Return (default_window ts)
             else Return (filter (in_quarter yr n) ts, quarter_expr "Q" yr n)).
Proof.
  intros Hy Hn e. pose proof (quarter_expr_checks yr n Hy Hn) as H.
  unfold quarter_expr_ok in H. fold e in H.
  repeat (apply andb_true_iff in H as [H ?]).
  match goal with Hs : match split_on _ _ with _ => _ end = true |- _ =>
    rename Hs into Hsplit end.
  apply negb_true_iff in H.
  match goal with Hl : negb (is_last_phrase e) = true |- _ =>
    apply negb_true_iff in Hl; rename Hl into Hlast end.
  match goal with Hq : has_quarter_shape e = true |- _ => rename Hq into Hshape end.
  split; [assumption |]. split.
  - unfold last_rule, parse_last_period.
    unfold is_last_phrase in Hlast. now rewrite Hlast.
  - unfold quarter_rule. unfold has_quarter_shape in Hshape. rewrite Hshape.
    destruct (split_on "-q" e) as [| a [| b [| c r]]]; try discriminate.
    unfold int_or_raise.
    destruct (int a) as [yr' |]; [| discriminate].
    destruct (int (strip b)) as [n' |]; [| discriminate].
    apply andb_true_iff in Hsplit as [Ey En].
    apply Z.eqb_eq in Ey, En. subst yr' n'.
    cbv zeta. rewrite quarter_mask. reflexivity.
Qed.

Section QuarterExpression.

Variable to_datetime : string -> parsed.

(** C3. On a non-empty series an expression that normalizes to
    [20YY-qn] (the year between 2000 and 2099, [n] one digit) resolves to
    the rows of year [20YY] whose month lies in [3n-2, 3n], labelled
    "20YY-Qn"; when there is no such row, to the last [min 3 (len ts)]
    rows under the default label "last K period(s)". *)
Theorem resolve_quarter_expression (ts : Series) (period : string) (yr n : Z) :
  ts <> [] ->
  lower (strip period) = quarter_expr "q" yr n ->
  2000 <= yr <= 2099 ->
  0 <= n <= 9 ->
  let selected := filter (in_quarter yr n) ts in
  filter_period to_datetime ts (Some period)
  = (if is_empty selected
     then Return (tail 3 ts, window_label (Z.min 3 (len ts)))
     else Return (selected, quarter_expr "Q" yr n))
  /\ trailing (Z.min 3 (len ts)) ts (tail 3 ts).
Proof.
  intros Hts Hnorm Hy Hn selected.
  destruct (quarter_rule_on_expr ts yr n Hy Hn) as (Hkw & Hlast & Hq).
  destruct (default_window_trailing ts) as (Hd & Ht).
  split; [| exact Ht].
  assert (Hp : period <> "").
  { intros ->. change (lower (strip "")) with "" in Hnorm.
    unfold quarter_expr in Hnorm. pose proof (str_not_empty yr) as Hs.
    destruct (str yr); [congruence | discriminate Hnorm]. }
  rewrite (filter_period_rules to_datetime ts period Hts Hp). cbv zeta.
  rewrite Hnorm.
  destruct (keyword_rules_skip ts _ Hkw) as (-> & -> & ->).
  rewrite Hlast, Hq, Hd. reflexivity.
Qed.

(** For a year outside 2000-2099 the quarter rule is skipped and the
    expression goes to the date parser. *)
Lemma resolve_quarter_1999 :
  filter_period to_datetime [point 1999 1 1] (Some "1999-Q1")
  = Return (date_rule to_datetime [point 1999 1 1] "1999-q1").
Proof. reflexivity. Qed.

End QuarterExpression.

(** C3 as the specification words it fails for a year that does not
    start with "20": the series holds January 1999, and whatever the date
    parser makes of "1999-Q1" the resolver does not return that row under
    the label "1999-Q1". *)
Lemma quarter_1999_counterexample :
  ~ exists to_datetime,
      filter_period to_datetime [point 1999 1 1]
                    (Some (quarter_expr "Q" 1999 1))
      = Return (filter (in_quarter 1999 1) [point 1999 1 1],
                quarter_expr "Q" 1999 1).
Proof.
  intros (to_datetime & H).
  change (quarter_expr "Q" 1999 1) with "1999-Q1" in H.
  rewrite resolve_quarter_1999 in H. unfold date_rule in H.
  destruct (to_datetime "1999-q1") as [| | t]; try discriminate H.
  cbn [filter point ds year month] in H.
  destruct (Z.eqb_spec 1999 (year t)) as [Ey |]; [| discriminate H].
  destruct (Z.eqb_spec 1 (month t)) as [Em |]; [| discriminate H].
  cbn [andb is_empty] in H. unfold strftime_Ym in H.
  rewrite <- Ey, <- Em in H. discriminate H.
Qed.

(** ** The series slicer *)

Lemma month_range_In (lo hi x : Z) : In x (month_range lo hi) <-> lo <= x <= hi.
Proof.
  split; [| apply in_month_range].
  unfold month_range. rewrite in_map_iff. intros (k & <- & Hk).
  apply in_seq in Hk. lia.
Qed.

Lemma seq_sorted (a n : nat) : StronglySorted lt (seq a n).
Proof.
  revert a. induction n as [| n IH]; intros a; simpl; constructor; auto.
  apply Forall_forall. intros x Hx. apply in_seq in Hx. lia.
Qed.

Lemma StronglySorted_map {A B : Type} (R : A -> A -> Prop)
  (R' : B -> B -> Prop) (f : A -> B) (l : list A) :
  (forall x x', R x x' -> R' (f x) (f x')) ->
  StronglySorted R l -> StronglySorted R' (map f l).
Proof.
  intros Hf. induction 1 as [| x l Hl IH Hx]; simpl; constructor; auto.
  apply Forall_forall. intros b Hb. apply in_map_iff in Hb as (x' & <- & Hx').
  rewrite Forall_forall in Hx. auto.
Qed.

Lemma ts_index_month_start (i : Z) : ts_index (month_start i) = i.
Proof.
  unfold ts_index, month_start, month_index. cbn [year month].
  pose proof (Z.div_mod i 12 ltac:(lia)). lia.
Qed.

Lemma month_start_valid (i : Z) : 1 <= month (month_start i) <= 12.
Proof.
  unfold month_start. cbn [month].
  pose proof (Z.mod_pos_bound i 12 ltac:(lia)). lia.
Qed.

Lemma month_start_ts_index (t : Timestamp) :
  1 <= month t <= 12 -> month_start (ts_index t) = t.
Proof.
  intros Hm. destruct t as [yr mo]. cbn [month] in Hm.
  unfold ts_index, month_start, month_index. cbn [year month].
  assert (Hq : (12 * yr + (mo - 1)) / 12 = yr).
  { symmetry. apply (Z.div_unique _ 12 yr (mo - 1)); lia. }
  assert (Hr : (12 * yr + (mo - 1)) mod 12 = mo - 1).
  { symmetry. apply (Z.mod_unique _ 12 yr (mo - 1)); lia. }
  rewrite Hq, Hr. f_equal. lia.
Qed.

(** Two valid dates have the same month index exactly when they are in
    the same month of the same year. *)
Lemma in_month_index (t : Timestamp) (o : Observation) :
  1 <= month t <= 12 -> 1 <= d_month (date o) <= 12 ->
  in_month t o = (date_index (date o) =? ts_index t).
Proof.
  intros Ht Ho. unfold in_month, date_index, ts_index, month_index.
  destruct (Z.eqb_spec (12 * d_year (date o) + (d_month (date o) - 1))
                       (12 * year t + (month t - 1))) as [E | E].
  - apply andb_true_iff. rewrite !Z.eqb_eq. lia.
  - apply andb_false_iff. rewrite !Z.eqb_neq. lia.
Qed.

Lemma fold_min_spec (l : list Z) (d : Z) :
  let m := fold_left Z.min l d in
  In m (d :: l) /\ forall x, In x (d :: l) -> m <= x.
Proof.
  revert d. induction l as [| a l IH]; intros d; simpl.
  - split; [auto | intros x [<- | []]; lia].
  - destruct (IH (Z.min d a)) as [Hin Hle]. split.
    + destruct Hin as [E | Hin]; [| auto].
      rewrite <- E. destruct (Z.min_spec d a) as [[_ ->] | [_ ->]]; auto.
    + intros x [<- | [<- | Hx]].
      * pose proof (Hle (Z.min d a) (or_introl eq_refl)). lia.
      * pose proof (Hle (Z.min d a) (or_introl eq_refl)). lia.
      * apply Hle. now right.
Qed.

Lemma fold_max_spec (l : list Z) (d : Z) :
  let m := fold_left Z.max l d in
  In m (d :: l) /\ forall x, In x (d :: l) -> x <= m.
Proof.
  revert d. induction l as [| a l IH]; intros d; simpl.
  - split; [auto | intros x [<- | []]; lia].
  - destruct (IH (Z.max d a)) as [Hin Hle]. split.
    + destruct Hin as [E | Hin]; [| auto].
      rewrite <- E. destruct (Z.max_spec d a) as [[_ ->] | [_ ->]]; auto.
    + intros x [<- | [<- | Hx]].
      * pose proof (Hle (Z.max d a) (or_introl eq_refl)). lia.
      * pose proof (Hle (Z.max d a) (or_introl eq_refl)). lia.
      * apply Hle. now right.
Qed.

(** The resampled frame has one row per month from the earliest to the
    latest month of the frame, each with the mean of its bin. *)
Lemma resample_spec (series : DataFrame) :
  series <> [] ->
  exists lo hi,
    resample_MS_mean series
    = map (fun i => {| ds := month_start i; y := mean (bin_values series i) |})
          (month_range lo hi)
    /\ (exists o, In o series /\ date_index (date o) = lo)
    /\ (exists o, In o series /\ date_index (date o) = hi)
    /\ forall o, In o series -> lo <= date_index (date o) <= hi.
Proof.
  destruct series as [| o r]; [congruence | intros _].
  set (idx := fun o' : Observation => date_index (date o')).
  destruct (fold_min_spec (map idx r) (idx o)) as [Hlo Hlo_le].
  destruct (fold_max_spec (map idx r) (idx o)) as [Hhi Hhi_le].
  change (idx o :: map idx r) with (map idx (o :: r)) in *.
  do 2 eexists. split; [reflexivity |].
  apply in_map_iff in Hlo as (o1 & E1 & H1).
  apply in_map_iff in Hhi as (o2 & E2 & H2).
  split; [exists o1; auto |]. split; [exists o2; auto |].
  intros o' Ho'. change (date_index (date o')) with (idx o').
  split; [apply Hlo_le | apply Hhi_le]; now apply in_map.
Qed.

(** ** Sorting and averaging *)

Lemma insert_by_date_perm (o : Observation) (l : DataFrame) :
  Permutation (insert_by_date o l) (o :: l).
Proof.
  induction l as [| o' r IH]; simpl; [reflexivity |].
  destruct (date_leb (date o) (date o')); [reflexivity |].
  rewrite IH. apply perm_swap.
Qed.

Lemma sort_values_date_perm (df : DataFrame) :
  Permutation (sort_values_date df) df.
Proof.
  induction df as [| o r IH]; simpl; [reflexivity |].
  rewrite insert_by_date_perm. now constructor.
Qed.

Lemma filter_perm {A : Type} (f : A -> bool) (l l' : list A) :
  Permutation l l' -> Permutation (filter f l) (filter f l').
Proof.
  induction 1 as [| x l l' _ IH | x x' l | l l' l'' _ IH1 _ IH2]; simpl.
  - reflexivity.
  - destruct (f x); [now constructor | assumption].
  - destruct (f x), (f x'); try reflexivity. apply perm_swap.
  - now transitivity (filter f l').
Qed.

Lemma Qsum_perm (l l' : list Q) : Permutation l l' -> (Qsum l == Qsum l')%Q.
Proof.
  induction 1 as [| x l l' _ IH | x x' l | l l' l'' _ IH1 _ IH2]; simpl.
  - reflexivity.
  - now rewrite IH.
  - ring.
  - now rewrite IH1.
Qed.

(** The mean of a bin does not depend on the order of its rows. *)
Lemma mean_perm (l l' : list Q) : Permutation l l' -> mean l = mean l'.
Proof.
  intros H. pose proof (Permutation_length H) as Hlen.
  pose proof (Qsum_perm l l' H) as Hsum.
  destruct l as [| a l], l' as [| a' l']; try discriminate Hlen;
    [reflexivity |].
  unfold mean, len. rewrite Hlen. f_equal. apply Qred_complete.
  now rewrite Hsum.
Qed.

Lemma load_data_filter (rows : DataFrame) (kpi_name segment_name : string) :
  filter (fun o => String.eqb (kpi o) (lower kpi_name)
                   && String.eqb (segment o) (lower segment_name))
         (load_data rows)
  = load_data (filter (matches kpi_name segment_name) rows).
Proof.
  unfold load_data.
  induction rows as [| o r IH]; [reflexivity |].
  cbn [map filter kpi segment]. rewrite IH.
  destruct (matches kpi_name segment_name o) eqn:E;
    unfold matches in E; rewrite E; reflexivity.
Qed.

Lemma load_data_In (rows : DataFrame) (o' : Observation) :
  In o' (load_data rows) ->
  exists o, In o rows /\ date o' = date o /\ value o' = value o.
Proof.
  unfold load_data. rewrite in_map_iff. intros (o & <- & Ho).
  exists o. auto.
Qed.

Lemma load_data_bin (rows : DataFrame) (i : Z) :
  bin_values (load_data rows) i = bin_values rows i.
Proof.
  unfold bin_values, load_data.
  induction rows as [| o r IH]; [reflexivity |].
  cbn [map filter date].
  destruct (date_index (date o) =? i); cbn [map value]; now rewrite IH.
Qed.

Lemma slice_series_unfold (rows : DataFrame) (kpi_name segment_name : string) :
  slice_series (load_data rows) kpi_name segment_name
  = resample_MS_mean
      (sort_values_date
         (load_data (filter (matches kpi_name segment_name) rows))).
Proof.
  unfold slice_series. rewrite load_data_filter.
  destruct (sort_values_date _); reflexivity.
Qed.

(** The bin of a month holds the values observed in that month. *)
Lemma bin_values_month (rows : DataFrame) (kpi_name segment_name : string)
  (i : Z) :
  (forall o, In o rows -> 1 <= d_month (date o) <= 12) ->
  bin_values (filter (matches kpi_name segment_name) rows) i
  = month_values rows kpi_name segment_name (month_start i).
Proof.
  intros Hvalid. unfold bin_values, month_values. f_equal.
  induction rows as [| o r IH]; [reflexivity |].
  assert (Ho : in_month (month_start i) o = (date_index (date o) =? i)).
  { rewrite in_month_index.
    - now rewrite ts_index_month_start.
    - apply month_start_valid.
    - apply Hvalid. now left. }
  cbn [filter]. rewrite Ho.
  destruct (matches kpi_name segment_name o); cbn [filter andb];
    rewrite IH by (intros o' Ho'; apply Hvalid; now right); reflexivity.
Qed.

(** C2. For a history whose dates are valid, the series of a KPI and a
    segment (compared without regard to case) is empty when no
    observation matches; it is strictly ascending by month; it has a row
    for a month exactly when the month lies between the months of two
    matching observations, the month of the earliest and of the latest
    included, so that a month without a matching observation inside that
    span has a row as well; and the value of each row is the mean of the
    matching values observed in its month, which is NaN when there is
    none. *)
Theorem slice_series_months (rows : DataFrame) (kpi_name segment_name : string) :
  (forall o, In o rows -> 1 <= d_month (date o) <= 12) ->
  let series := slice_series (load_data rows) kpi_name segment_name in
  let found := filter (matches kpi_name segment_name) rows in
  (found = [] -> series = [])
  /\ StronglySorted before series
  /\ (forall t, 1 <= month t <= 12 ->
        ((exists p, In p series /\ ds p = t)
         <-> exists o1 o2,
               In o1 found /\ In o2 found
               /\ date_index (date o1) <= ts_index t <= date_index (date o2)))
  /\ (forall p, In p series ->
        y p = mean (month_values rows kpi_name segment_name (ds p)))
  /\ (forall p, In p series ->
        (y p = NaN <-> month_values rows kpi_name segment_name (ds p) = [])).
Proof.
  intros Hvalid series found. unfold series. rewrite slice_series_unfold.
  fold found. set (sorted := sort_values_date (load_data found)).
  assert (Hperm : Permutation sorted (load_data found))
    by apply sort_values_date_perm.
  assert (Hvalues : forall p, In p (resample_MS_mean sorted) ->
            y p = mean (month_values rows kpi_name segment_name (ds p))).
  { destruct sorted as [| o0 r0] eqn:Es; [intros p [] |].
    destruct (resample_spec (o0 :: r0)) as (lo & hi & -> & _);
      [discriminate |].
    intros p Hp. apply in_map_iff in Hp as (i & <- & _). cbn [y ds].
    rewrite <- bin_values_month by assumption. fold found.
    rewrite <- (load_data_bin found i). apply mean_perm.
    unfold bin_values. apply Permutation_map, filter_perm, Hperm. }
  destruct found as [| f0 fr] eqn:Ef.
  - (* no observation matches *)
    assert (Es : sorted = []) by (now apply Permutation_nil; symmetry).
    rewrite Es in *. cbn [resample_MS_mean].
    split; [reflexivity |]. split; [constructor |]. split; [| split].
    + intros t Ht.
      split; [intros (p & [] & _) | intros (o1 & o2 & [] & _)].
    + intros p [].
    + intros p [].
  - assert (Hne : sorted <> []).
    { intros Es. rewrite Es in Hperm. apply Permutation_nil in Hperm.
      discriminate Hperm. }
    destruct (resample_spec sorted Hne)
      as (lo & hi & Er & (o1 & Ho1 & E1) & (o2 & Ho2 & E2) & Hall).
    assert (Hfound : forall o', In o' sorted ->
              exists o, In o (f0 :: fr) /\ date o' = date o).
    { intros o' Ho'. apply (Permutation_in _ Hperm) in Ho'.
      apply load_data_In in Ho' as (o & Ho & Ed & _). eauto. }
    assert (Hsorted : forall o, In o (f0 :: fr) ->
              lo <= date_index (date o) <= hi).
    { intros o Ho.
      assert (Hl : In {| date := date o; kpi := lower (kpi o);
                         segment := lower (segment o); value := value o |}
                      (load_data (f0 :: fr)))
        by (apply (in_map (fun o => _) _ o Ho)).
      apply Permutation_sym in Hperm.
      apply (Permutation_in _ Hperm), Hall in Hl. exact Hl. }
    split; [discriminate |]. split; [| split; [| split]].
    + rewrite Er. unfold month_range. rewrite map_map.
      apply StronglySorted_map with (R := lt); [| apply seq_sorted].
      intros k k' Hk. unfold before. cbn [ds].
      rewrite !ts_index_month_start. lia.
    + intros t Ht. rewrite Er. split.
      * intros (p & Hp & <-). apply in_map_iff in Hp as (i & <- & Hi).
        cbn [ds]. rewrite ts_index_month_start.
        apply month_range_In in Hi.
        destruct (Hfound o1 Ho1) as (a & Ha & Ea).
        destruct (Hfound o2 Ho2) as (b & Hb & Eb).
        exists a, b. rewrite <- Ea, <- Eb, E1, E2. auto.
      * intros (a & b & Ha & Hb & Hab).
        pose proof (Hsorted a Ha). pose proof (Hsorted b Hb).
        exists {| ds := month_start (ts_index t);
                  y := mean (bin_values sorted (ts_index t)) |}.
        split; [| now apply month_start_ts_index].
        apply in_map_iff. exists (ts_index t).
        split; [reflexivity | apply month_range_In; lia].
    + exact Hvalues.
    + intros p Hp. rewrite (Hvalues p Hp).
      destruct (month_values rows kpi_name segment_name (ds p));
        cbn [mean]; split; intros; congruence.
Qed.

(** C2 as the specification words it fails on a history with a gap: the
    readings of revenue for SMB are of January and March 2024, none is
    of February, and the series has a row for February 2024, valued
    NaN. *)
Lemma slice_fills_gap_counterexample :
  In {| ds := {| year := 2024; month := 2 |}; y := NaN |}
     (slice_series (load_data gap_rows) "revenue" "smb")
  /\ filter (fun o => matches "revenue" "smb" o
                      && in_month {| year := 2024; month := 2 |} o) gap_rows
     = [].
Proof. split; [vm_compute; auto | reflexivity]. Qed.

(** ** The statements at concrete inputs *)

(** C2 on [gap_rows]: the dates are valid and the series is ascending. *)
Lemma slice_series_months_witness :
  StronglySorted before (slice_series (load_data gap_rows) "Revenue" "SMB").
Proof.
  refine (proj1 (proj2 (slice_series_months gap_rows "Revenue" "SMB" _))).
  intros o [<- | [<- | [<- | [<- | []]]]]; simpl; lia.
Defined.

(** C3 on the eight months of 2024: "2024-Q1" selects January to March. *)
Lemma resolve_quarter_expression_witness :
  filter_period to_datetime_iso series8 (Some "2024-Q1")
  = Return (monthly 2024 [1; 2; 3], "2024-Q1").
Proof.
  refine (proj1 (resolve_quarter_expression to_datetime_iso series8 "2024-Q1"
                   2024 1 _ eq_refl _ _)); [discriminate | lia | lia].
Defined.

(** C4 on five months, with both backends available. *)
Lemma forecast_insufficient_history_witness :
  forecast true true (fun _ _ _ _ => "prophet") (fun _ _ _ _ => "arima")
           (monthly 2024 [1; 2; 3; 4; 5]) 3 "revenue" "smb" "prophet"
           {| messages := []; fitted := [] |}
  = ({| messages := ["I need at least 6 months of data to forecast reliably."];
        fitted := [] |}, []).
Proof.
  refine (proj1 (forecast_insufficient_history true true _ _
                   (monthly 2024 [1; 2; 3; 4; 5]) 3 "revenue" "smb" "prophet"
                   {| messages := []; fitted := [] |} _)).
  reflexivity.
Defined.

(** C5 on the eight months of 2024. *)
Lemma forecast_arima_only_witness :
  snd (forecast false true (fun _ _ _ _ => "prophet") (fun _ _ _ _ => "arima")
                series8 3 "revenue" "smb" "prophet"
                {| messages := []; fitted := [] |})
  = [SlotSet "model" "prophet_unavailable"].
Proof.
  refine (proj1 (forecast_arima_only _ _ series8 3 "revenue" "smb"
                   {| messages := []; fitted := [] |} _)).
  discriminate.
Defined.

(** C6 on the eight months of 2024. *)
Lemma resolve_without_expression_witness :
  exists subset,
    filter_period to_datetime_iso series8 None
    = Return (subset, "last 3 period(s)")
    /\ trailing 3 series8 subset.
Proof.
  destruct (resolve_without_expression to_datetime_iso series8)
    as (subset & H & _ & Ht); [discriminate |].
  exists subset. split; [exact H | exact Ht].
Defined.

(** The fall-through on an expression that is no pattern and no date. *)
Lemma unrecognized_resolves_to_default_witness :
  filter_period to_datetime_iso series8 (Some "the usual")
  = filter_period to_datetime_iso series8 None.
Proof.
  apply (unrecognized_resolves_to_default to_datetime_iso series8 "the usual");
    [reflexivity | intros t; discriminate].
Defined.

(** C8 on the example of the specification: eight months and
    "last 2 quarters" give the last six rows, labelled "last 6 period(s)". *)
Lemma resolve_last_phrase_witness :
  exists subset,
    filter_period to_datetime_iso series8 (Some "last 2 quarters")
    = Return (subset, "last 6 period(s)")
    /\ trailing 6 series8 subset.
Proof.
  apply (resolve_last_phrase to_datetime_iso series8 "last 2 quarters"
           (Some 2) (Some "quarters"));
    [discriminate | reflexivity |].
  intros u E. injection E as <-. simpl. auto 6.
Defined.

(** C9 on the string "4". *)
Lemma horizon_coercion_witness :
  ensure_positive_int float_of_str_int float_of_int_exact (PyStr "4") 3 = 4.
Proof.
  exact (proj1 (proj2 (horizon_coercion float_of_str_int float_of_int_exact
                         (PyStr "4")))
               (inject_Z 4) eq_refl).
Defined.

(** C10 on the eight months of 2024 and " YTD ". *)
Lemma to_date_keeps_latest_witness :
  exists subset label,
    filter_period to_datetime_iso series8 (Some " YTD ")
    = Return (subset, label)
    /\ In (point 2024 8 (inject_Z 8)) subset.
Proof.
  destruct (to_date_keeps_latest to_datetime_iso series8 " YTD ")
    as (subset & label & H & _ & _ & Hin & _);
    [discriminate | left; reflexivity |].
  exists subset, label. split; [exact H |].
  apply Hin. split; [simpl; auto 10 |].
  intros q Hq. simpl in Hq.
  repeat (destruct Hq as [<- | Hq]; [reflexivity |]). destruct Hq.
Defined.

(** The only raise of the resolver, on an expression that raises. *)
Lemma filter_period_raises_only_in_quarter_rule_witness :
  exists p, Some "2024-q1-q2" = Some p
            /\ has_quarter_shape (lower (strip p)) = true.
Proof.
  apply (filter_period_raises_only_in_quarter_rule
           to_datetime_iso [point 2024 1 1] (Some "2024-q1-q2") ValueError).
  apply filter_period_raises_on_unpacking.
Defined.

(** The example of the specification for a quarter before the history:
    "2024-Q1" on a series that starts in April 2024 matches no row and
    falls back to the last three rows. *)
Example quarter_before_history :
  filter_period to_datetime_iso (monthly 2024 [4; 5; 6; 7; 8]) (Some "2024-Q1")
  = Return (monthly 2024 [6; 7; 8], "last 3 period(s)").
Proof. reflexivity. Qed.

(** The same expression read by the date rule when it names a month. *)
Example month_expression :
  filter_period to_datetime_iso series8 (Some "2024-05")
  = Return (monthly 2024 [5], "2024-05").
Proof. reflexivity. Qed.

(** ** What every selection satisfies *)

Lemma subseq_refl {A : Type} (l : list A) : subseq l l.
Proof. induction l; constructor; assumption. Qed.

Lemma subseq_In {A : Type} (sub l : list A) (x : A) :
  subseq sub l -> In x sub -> In x l.
Proof.
  induction 1 as [| y sub l _ IH | y sub l _ IH]; simpl; intuition.
Qed.

Lemma filter_subseq {A : Type} (f : A -> bool) (l : list A) :
  subseq (filter f l) l.
Proof.
  induction l as [| x l IH]; simpl; [constructor |].
  destruct (f x); constructor; assumption.
Qed.

(** A stronger mask keeps fewer rows. *)
Lemma filter_subseq_filter {A : Type} (f g : A -> bool) (l : list A) :
  (forall x, f x = true -> g x = true) ->
  subseq (filter f l) (filter g l).
Proof.
  intros Hfg. induction l as [| x l IH]; simpl; [constructor |].
  destruct (f x) eqn:Ef.
  - rewrite (Hfg x Ef). now constructor.
  - destruct (g x); [constructor |]; assumption.
Qed.

Lemma skipn_subseq {A : Type} (n : nat) (l : list A) : subseq (skipn n l) l.
Proof.
  revert l. induction n as [| n IH]; intros l; [apply subseq_refl |].
  destruct l as [| x l]; simpl; [constructor |]. constructor. apply IH.
Qed.

Lemma tail_subseq {A : Type} (n : Z) (l : list A) : subseq (tail n l) l.
Proof.
  unfold tail. destruct (n =? 0).
  - induction l; constructor; assumption.
  - destruct (0 <? n); apply skipn_subseq.
Qed.

Lemma tail_not_empty {A : Type} (n : Z) (l : list A) :
  0 < n -> l <> [] -> tail n l <> [].
Proof.
  intros Hn Hl E. pose proof (len_tail n l Hn) as H. rewrite E in H.
  destruct l; [congruence |]. unfold len in H. simpl in H. lia.
Qed.

Lemma append_not_empty (a b : string) : a <> "" -> a ++ b <> "".
Proof. destruct a; [congruence | discriminate]. Qed.

Lemma is_empty_true {A : Type} (l : list A) : is_empty l = true -> l = [].
Proof. destruct l; [reflexivity | discriminate]. Qed.

Lemma is_empty_not {A : Type} (l : list A) : is_empty l = false -> l <> [].
Proof. destruct l; [discriminate | discriminate]. Qed.

Lemma default_window_good (ts : Series) :
  ts <> [] -> good_selection ts (default_window ts).
Proof.
  intros Hts. unfold good_selection, default_window. cbn [fst snd].
  repeat split; [apply tail_subseq | apply tail_not_empty; [lia | assumption]
                | discriminate].
Qed.

Lemma ytd_rule_good (ts : Series) (n : string) (sel : Selection) :
  ytd_rule ts n = Some sel -> good_selection ts sel.
Proof.
  unfold ytd_rule. destruct (mem n _); [| discriminate].
  destruct (max_ds ts) as [latest |]; [| discriminate].
  destruct (is_empty _) eqn:E; [discriminate |]. intros [= <-].
  repeat split; cbn [fst snd];
    [apply filter_subseq | now apply is_empty_not
    | apply append_not_empty, str_not_empty].
Qed.

Lemma mtd_rule_good (ts : Series) (n : string) (sel : Selection) :
  mtd_rule ts n = Some sel -> good_selection ts sel.
Proof.
  unfold mtd_rule. destruct (mem n _); [| discriminate].
  destruct (max_ds ts) as [latest |]; [| discriminate].
  destruct (is_empty _) eqn:E; [discriminate |]. intros [= <-].
  repeat split; cbn [fst snd];
    [apply filter_subseq | now apply is_empty_not |].
  unfold strftime_Ym. apply append_not_empty, append_not_empty, str_not_empty.
Qed.

Lemma qtd_rule_good (ts : Series) (n : string) (sel : Selection) :
  qtd_rule ts n = Some sel -> good_selection ts sel.
Proof.
  unfold qtd_rule. destruct (mem n _); [| discriminate].
  destruct (max_ds ts) as [latest |]; [| discriminate]. cbv zeta.
  destruct (is_empty _) eqn:E; [discriminate |]. intros [= <-].
  repeat split; cbn [fst snd];
    [apply filter_subseq | now apply is_empty_not
    | apply append_not_empty, str_not_empty].
Qed.

(** [parse_last_period] answers with a positive number of months, and it
    answers exactly when "last" is one of the words. *)
Lemma parse_last_period_positive (n : string) :
  (is_last_phrase n = false -> parse_last_period n = None)
  /\ (is_last_phrase n = true ->
      exists m, parse_last_period n = Some m /\ 1 <= m).
Proof.
  unfold parse_last_period, is_last_phrase. split; intros ->; cbn [negb].
  - reflexivity.
  - eexists. split; [reflexivity | lia].
Qed.

Lemma last_rule_good (ts : Series) (n : string) (sel : Selection) :
  ts <> [] -> last_rule ts n = Some sel -> good_selection ts sel.
Proof.
  intros Hts. unfold last_rule.
  destruct (is_last_phrase n) eqn:El.
  - destruct (proj2 (parse_last_period_positive n) El) as (m & -> & Hm).
    destruct (Z.eqb_spec m 0); [lia |]. intros [= <-].
    repeat split; cbn [fst snd];
      [apply tail_subseq | apply tail_not_empty; [lia | assumption]
      | discriminate].
  - rewrite (proj1 (parse_last_period_positive n) El). discriminate.
Qed.

Lemma quarter_rule_good (ts : Series) (n : string) (sel : Selection) :
  ts <> [] -> quarter_rule ts n = Some (Return sel) -> good_selection ts sel.
Proof.
  intros Hts. unfold quarter_rule.
  destruct (startswith n "20" && contains "-q" n); [| discriminate].
  destruct (split_on "-q" n) as [| a [| b [| c r]]]; try discriminate.
  unfold int_or_raise. destruct (int a) as [yr |]; [| discriminate].
  destruct (int (strip b)) as [q |]; [| discriminate]. cbv zeta.
  destruct (is_empty _) eqn:E; intros [= <-].
  - now apply default_window_good.
  - repeat split; cbn [fst snd];
      [apply filter_subseq | now apply is_empty_not
      | apply append_not_empty, str_not_empty].
Qed.

Section SelectionFacts.

Variable to_datetime : string -> parsed.

Lemma date_rule_good (ts : Series) (n : string) :
  ts <> [] -> good_selection ts (date_rule to_datetime ts n).
Proof.
  intros Hts. unfold date_rule.
  destruct (to_datetime n) as [| | t]; try now apply default_window_good.
  destruct (is_empty _) eqn:E; [now apply default_window_good |].
  repeat split; cbn [fst snd];
    [apply filter_subseq | now apply is_empty_not |].
  unfold strftime_Ym. apply append_not_empty, str_not_empty.
Qed.

(** On a series that is not empty every selection is a good one. *)
Lemma filter_period_good (ts : Series) (period : option string)
  (sel : Selection) :
  ts <> [] ->
  filter_period to_datetime ts period = Return sel ->
  good_selection ts sel.
Proof.
  intros Hts. unfold filter_period. rewrite (is_empty_false ts Hts).
  assert (Hgood : forall sel', good_selection ts sel' ->
            Return sel' = Return sel -> good_selection ts sel)
    by (intros sel' H [= <-]; exact H).
  destruct period as [period |];
    [| apply Hgood; now apply default_window_good].
  destruct (String.eqb period "");
    [apply Hgood; now apply default_window_good |].
  cbv zeta.
  destruct (ytd_rule ts _) as [sel' |] eqn:E1;
    [apply Hgood; eapply ytd_rule_good; eassumption |].
  destruct (mtd_rule ts _) as [sel' |] eqn:E2;
    [apply Hgood; eapply mtd_rule_good; eassumption |].
  destruct (qtd_rule ts _) as [sel' |] eqn:E3;
    [apply Hgood; eapply qtd_rule_good; eassumption |].
  destruct (last_rule ts _) as [sel' |] eqn:E4;
    [apply Hgood; eapply last_rule_good; eassumption |].
  destruct (quarter_rule ts _) as [[sel' | e] |] eqn:E5.
  - apply Hgood. eapply quarter_rule_good; eassumption.
  - discriminate.
  - apply Hgood. now apply date_rule_good.
Qed.

(** Without the quarter shape, and without an expression, the resolver
    returns. *)
Lemma filter_period_returns (ts : Series) (period : option string) :
  (forall p, period = Some p -> has_quarter_shape (lower (strip p)) = false) ->
  exists sel, filter_period to_datetime ts period = Return sel.
Proof.
  intros Hshape. unfold filter_period.
  destruct (is_empty ts); [eauto |].
  destruct period as [p |]; [| eauto].
  specialize (Hshape p eq_refl).
  destruct (String.eqb p ""); [eauto |]. cbv zeta.
  destruct (ytd_rule ts _); [eauto |].
  destruct (mtd_rule ts _); [eauto |].
  destruct (qtd_rule ts _); [eauto |].
  destruct (last_rule ts _); [eauto |].
  unfold quarter_rule. unfold has_quarter_shape in Hshape. rewrite Hshape.
  eauto.
Qed.

(** Whatever the expression, a selection the resolver returns holds rows
    of the series in their order under a label that is not empty; it
    holds at least one row unless the series is empty, in which case the
    label is "no history available". *)
Theorem filter_period_selection (ts : Series) (period : option string)
  (subset : Series) (label : string) :
  filter_period to_datetime ts period = Return (subset, label) ->
  subseq subset ts
  /\ label <> ""
  /\ (ts <> [] -> subset <> [])
  /\ (ts = [] -> subset = [] /\ label = "no history available").
Proof.
  destruct ts as [| p0 r].
  - cbn. intros [= <- <-].
    repeat split; [constructor | discriminate | congruence].
  - intros H.
    destruct (filter_period_good (p0 :: r) period (subset, label))
      as (Hs & Hn & Hl); [discriminate | exact H |].
    cbn [fst snd] in *. repeat split; auto; discriminate.
Qed.

(** Two expressions that are not empty and have the same normal form
    (lower case, no blank at either end) resolve alike. *)
Theorem filter_period_normal_form (ts : Series) (period period' : string) :
  period <> "" -> period' <> "" ->
  lower (strip period) = lower (strip period') ->
  filter_period to_datetime ts (Some period)
  = filter_period to_datetime ts (Some period').
Proof.
  intros Hp Hp' E. destruct ts as [| p0 r]; [reflexivity |].
  rewrite !filter_period_rules by (assumption || discriminate).
  cbv zeta. now rewrite E.
Qed.

(** The word "last" rules out the to-date keywords. *)
Lemma last_phrase_not_keyword (n : string) :
  is_last_phrase n = true -> is_to_date_keyword n = false.
Proof.
  intros Hl. destruct (is_to_date_keyword n) eqn:Ek; [| reflexivity].
  unfold is_to_date_keyword, to_date_keywords, mem in Ek. cbn [existsb] in Ek.
  repeat (apply orb_true_iff in Ek as [Ek | Ek]);
    try (apply String.eqb_eq in Ek; subst n; discriminate Hl).
  discriminate Ek.
Qed.

(** An expression with the word "last" among its words is answered by
    the "last" rule, whatever else it holds: on a non-empty series it
    resolves to the last [min m (len ts)] rows, [m >= 1] being what
    [parse_last_period] reads, and it does not raise. *)
Theorem last_word_wins (ts : Series) (period : string) :
  ts <> [] ->
  is_last_phrase (lower (strip period)) = true ->
  exists m,
    parse_last_period (lower (strip period)) = Some m
    /\ 1 <= m
    /\ filter_period to_datetime ts (Some period)
       = Return (tail m ts, window_label (Z.min m (len ts)))
    /\ trailing (Z.min m (len ts)) ts (tail m ts).
Proof.
  intros Hts Hl.
  assert (Hp : period <> "") by (intros ->; discriminate Hl).
  destruct (proj2 (parse_last_period_positive _) Hl) as (m & Hm & Hpos).
  exists m. split; [assumption |]. split; [assumption |].
  split; [| apply tail_trailing; lia].
  rewrite (filter_period_rules to_datetime ts period Hts Hp). cbv zeta.
  destruct (keyword_rules_skip ts _ (last_phrase_not_keyword _ Hl))
    as (-> & -> & ->).
  unfold last_rule. rewrite Hm.
  destruct (Z.eqb_spec m 0); [lia |].
  rewrite len_tail by lia. reflexivity.
Qed.

(** An expression that no rule recognizes and that the date parser reads
    as a date selects the rows of the month of that date, labelled
    "YYYY-MM"; when the series has no row of that month, the default
    window. *)
Theorem resolve_date (ts : Series) (period : string) (t : Timestamp) :
  ts <> [] ->
  period <> "" ->
  recognized (lower (strip period)) = false ->
  to_datetime (lower (strip period)) = Stamp t ->
  filter_period to_datetime ts (Some period)
  = if is_empty (filter (in_month_of t) ts)
    then Return (tail 3 ts, window_label (Z.min 3 (len ts)))
    else Return (filter (in_month_of t) ts, str (year t) ++ "-" ++ pad2 (month t)).
Proof.
  intros Hts Hp Hrec Ht.
  rewrite (filter_period_rules to_datetime ts period Hts Hp). cbv zeta.
  unfold recognized in Hrec.
  apply orb_false_iff in Hrec as (Hrec & Hq).
  apply orb_false_iff in Hrec as (Hk & Hl).
  destruct (keyword_rules_skip ts _ Hk) as (-> & -> & ->).
  unfold last_rule. rewrite (proj1 (parse_last_period_positive _) Hl).
  unfold quarter_rule. unfold has_quarter_shape in Hq. rewrite Hq.
  unfold date_rule. rewrite Ht.
  destruct (default_window_trailing ts) as (-> & _).
  change (fun p : Point => (year (ds p) =? year t) && (month (ds p) =? month t))
    with (in_month_of t).
  destruct (is_empty (filter (in_month_of t) ts)); reflexivity.
Qed.

End SelectionFacts.

(** On a non-empty series the three to-date rules return nested
    selections: the month to date within the quarter to date within the
    year to date. *)
Theorem to_date_nesting (ts : Series) :
  ts <> [] ->
  exists ysel qsel msel,
    ytd_rule ts "ytd" = Some ysel
    /\ qtd_rule ts "qtd" = Some qsel
    /\ mtd_rule ts "mtd" = Some msel
    /\ subseq (fst msel) (fst qsel)
    /\ subseq (fst qsel) (fst ysel)
    /\ subseq (fst ysel) ts.
Proof.
  intros Hts.
  destruct (ytd_rule_returns ts "ytd" Hts eq_refl) as (ys & yl & Hy & _).
  destruct (qtd_rule_returns ts "qtd" Hts eq_refl) as (qs & ql & Hq & _).
  destruct (mtd_rule_returns ts "mtd" Hts eq_refl) as (ms & ml & Hm & _).
  exists (ys, yl), (qs, ql), (ms, ml).
  repeat (split; [assumption |]). cbn [fst].
  unfold ytd_rule in Hy. unfold qtd_rule in Hq. unfold mtd_rule in Hm.
  cbn [mem existsb] in Hy, Hq, Hm.
  change (String.eqb "ytd" "ytd") with true in Hy.
  change (String.eqb "qtd" "qtd") with true in Hq.
  change (String.eqb "mtd" "mtd") with true in Hm.
  cbn [orb] in Hy, Hq, Hm.
  destruct (max_ds ts) as [latest |]; [| discriminate].
  cbv zeta in Hq.
  destruct (is_empty _) in Hy; [discriminate |]. injection Hy as <- _.
  destruct (is_empty _) in Hq; [discriminate |]. injection Hq as <- _.
  destruct (is_empty _) in Hm; [discriminate |]. injection Hm as <- _.
  repeat split.
  - apply filter_subseq_filter. intros p. unfold between.
    rewrite !andb_true_iff, !Z.eqb_eq, !Z.leb_le. intros [Ey Em].
    pose proof (quarter_start_le (month latest)). lia.
  - apply filter_subseq_filter. intros p.
    rewrite andb_true_iff. tauto.
  - apply filter_subseq.
Qed.

(** ** More on the series slicer *)

Lemma lower_char_idempotent (c : ascii) : lower_char (lower_char c) = lower_char c.
Proof. destruct c as [[] [] [] [] [] [] [] []]; reflexivity. Qed.

Lemma lower_idempotent (s : string) : lower (lower s) = lower s.
Proof.
  induction s as [| c r IH]; [reflexivity |].
  cbn [lower]. now rewrite lower_char_idempotent, IH.
Qed.

Lemma filter_filter_implied {A : Type} (f g : A -> bool) (l : list A) :
  (forall x, f x = true -> g x = true) ->
  filter f (filter g l) = filter f l.
Proof.
  intros Hfg. induction l as [| x l IH]; [reflexivity |]. cbn [filter].
  destruct (g x) eqn:Eg; cbn [filter]; rewrite IH; [reflexivity |].
  destruct (f x) eqn:Ef; [| reflexivity].
  rewrite (Hfg x Ef) in Eg. discriminate.
Qed.

(** [slice_series] does not look at the case of its two arguments, and it
    sees only the rows whose kpi and segment are stored in lower case;
    [load_data] stores every row that way, and a second pass of it
    changes nothing. *)
Theorem slice_series_case (df : DataFrame) (kpi_name segment_name : string) :
  slice_series df kpi_name segment_name
  = slice_series df (lower kpi_name) (lower segment_name)
  /\ slice_series df kpi_name segment_name
     = slice_series (normalized_rows df) kpi_name segment_name
  /\ normalized_rows (load_data df) = load_data df
  /\ load_data (load_data df) = load_data df.
Proof.
  split; [| split; [| split]].
  - unfold slice_series. now rewrite !lower_idempotent.
  - unfold slice_series, normalized_rows.
    rewrite filter_filter_implied; [reflexivity |].
    intros o. rewrite !andb_true_iff, !String.eqb_eq.
    intros [-> ->]. now rewrite !lower_idempotent.
  - unfold normalized_rows, load_data.
    induction df as [| o r IH]; [reflexivity |].
    cbn [map filter kpi segment].
    rewrite !lower_idempotent, !String.eqb_refl. cbn [andb]. now rewrite IH.
  - unfold load_data. rewrite map_map. apply map_ext. intros o.
    cbn [date kpi segment value]. now rewrite !lower_idempotent.
Qed.

Lemma bin_values_In (l : DataFrame) (o : Observation) :
  In o l -> bin_values l (date_index (date o)) <> [].
Proof.
  intros Ho E. unfold bin_values in E. apply map_eq_nil in E.
  assert (Hin : In o (filter (fun o' => date_index (date o')
                                        =? date_index (date o)) l))
    by (apply filter_In; split; [assumption | apply Z.eqb_refl]).
  rewrite E in Hin. destruct Hin.
Qed.

Lemma month_range_length (lo hi : Z) :
  lo <= hi -> len (month_range lo hi) = hi - lo + 1.
Proof.
  intros H. unfold len, month_range. rewrite length_map, length_seq. lia.
Qed.

(** A series that is not empty is regular: its rows are the consecutive
    months from a first to a last one, and the rows of these two months
    carry a number, never NaN. *)
Theorem slice_series_regular (df : DataFrame) (kpi_name segment_name : string) :
  let series := slice_series df kpi_name segment_name in
  series <> [] ->
  exists lo hi,
    lo <= hi
    /\ map (fun p => ts_index (ds p)) series = month_range lo hi
    /\ len series = hi - lo + 1
    /\ forall p, In p series ->
         ts_index (ds p) = lo \/ ts_index (ds p) = hi -> y p <> NaN.
Proof.
  intros series. unfold series, slice_series.
  set (sorted := sort_values_date _).
  destruct (is_empty sorted) eqn:Es; [congruence |]. intros _.
  apply is_empty_not in Es.
  destruct (resample_spec sorted Es)
    as (lo & hi & -> & (o1 & Ho1 & E1) & (o2 & Ho2 & E2) & Hall).
  pose proof (Hall o1 Ho1) as Hlohi.
  exists lo, hi. split; [lia |].
  assert (Hidx : map (fun p => ts_index (ds p))
                     (map (fun i => {| ds := month_start i;
                                       y := mean (bin_values sorted i) |})
                          (month_range lo hi)) = month_range lo hi).
  { rewrite map_map. rewrite <- (map_id (month_range lo hi)) at 2.
    apply map_ext. intros i. cbn [ds]. apply ts_index_month_start. }
  split; [exact Hidx |]. split.
  - unfold len. rewrite length_map. apply month_range_length. lia.
  - intros p Hp Hend. apply in_map_iff in Hp as (i & <- & _).
    cbn [ds y] in *. rewrite ts_index_month_start in Hend.
    assert (Hbin : bin_values sorted i <> []).
    { destruct Hend as [-> | ->]; [rewrite <- E1 | rewrite <- E2];
        now apply bin_values_In. }
    destruct (bin_values sorted i); [congruence | discriminate].
Qed.

(** ** The two actions *)

Lemma app_one_not_self {A : Type} (l : list A) (x : A) : (l ++ [x])%list <> l.
Proof.
  intros E. apply (f_equal (@List.length A)) in E.
  rewrite length_app in E. simpl in E. lia.
Qed.

Section ActionFacts.

Variable USE_PROPHET USE_ARIMA : bool.
Variable prophet_text arima_text : Series -> Z -> string -> string -> string.
Variable float_of_str : string -> option pyfloat.
Variable float_of_int : Z -> option pyfloat.

(** With at least 6 rows the backend is chosen by the requested model
    first and by availability second: Prophet serves only a request for
    "prophet"; any other request is served by ARIMA and recorded as
    "arima", also when Prophet is available; and when ARIMA is missing
    such a request gets the "not available" message even if Prophet is
    there. *)
Theorem forecast_backend_choice (ts : Series) (horizon : Z)
  (kpi_name segment_name model_slot : string) (w : World) :
  6 <= len ts ->
  let outcome :=
    forecast USE_PROPHET USE_ARIMA prophet_text arima_text
             ts horizon kpi_name segment_name model_slot w in
  (model_slot = "prophet" -> USE_PROPHET = true ->
   outcome
   = (utter_message (prophet_text ts horizon kpi_name segment_name)
                    (fit ProphetBackend w), []))
  /\ (model_slot <> "prophet" -> USE_ARIMA = true ->
      outcome
      = (utter_message (arima_text ts horizon kpi_name segment_name)
                       (fit ArimaBackend w), [SlotSet "model" "arima"]))
  /\ (USE_ARIMA = false -> model_slot <> "prophet" \/ USE_PROPHET = false ->
      outcome
      = (utter_message
           "Forecasting libraries are not available on the server right now."
           w, [])).
Proof.
  intros Hlen outcome. unfold outcome, forecast.
  destruct (Z.ltb_spec (len ts) 6); [lia |].
  unfold run_prophet_forecast, run_arima_forecast.
  split; [| split].
  - intros -> ->. reflexivity.
  - intros Hm ->. apply String.eqb_neq in Hm. rewrite Hm. reflexivity.
  - intros -> [Hm | ->].
    + apply String.eqb_neq in Hm. rewrite Hm. reflexivity.
    + rewrite andb_false_r. reflexivity.
Qed.

(** What one call of [forecast] does to the world. *)
Lemma forecast_effects (ts : Series) (horizon : Z)
  (kpi_name segment_name model_slot : string) (w : World) :
  let outcome :=
    forecast USE_PROPHET USE_ARIMA prophet_text arima_text
             ts horizon kpi_name segment_name model_slot w in
  (exists text, messages (fst outcome) = (messages w ++ [text])%list)
  /\ ((fitted (fst outcome) = fitted w /\ snd outcome = [])
      \/ (fitted (fst outcome) = (fitted w ++ [ProphetBackend])%list
          /\ snd outcome = [] /\ USE_PROPHET = true /\ model_slot = "prophet")
      \/ (fitted (fst outcome) = (fitted w ++ [ArimaBackend])%list
          /\ USE_ARIMA = true
          /\ (snd outcome = [SlotSet "model" "arima"]
              \/ snd outcome = [SlotSet "model" "prophet_unavailable"]))).
Proof.
  unfold forecast, run_prophet_forecast, run_arima_forecast.
  destruct (len ts <? 6); [cbn; eauto |].
  destruct (String.eqb_spec model_slot "prophet") as [-> | Hm];
    destruct USE_PROPHET, USE_ARIMA; cbn; eauto 10.
Qed.

(** Every run of the forecast action utters exactly one message, fits at
    most one model and never one whose flag is off, and returns an event
    exactly when it fitted ARIMA: then one [SlotSet] of "model" to "arima"
    or to "prophet_unavailable". *)
Theorem forecast_run_effects (tracker : Tracker) (rows : DataFrame) (w : World) :
  let outcome :=
    ActionForecastKPI_run USE_PROPHET USE_ARIMA prophet_text arima_text
                          float_of_str float_of_int tracker rows w in
  (exists text, messages (fst outcome) = (messages w ++ [text])%list)
  /\ ((fitted (fst outcome) = fitted w /\ snd outcome = [])
      \/ (fitted (fst outcome) = (fitted w ++ [ProphetBackend])%list
          /\ snd outcome = [] /\ USE_PROPHET = true)
      \/ (fitted (fst outcome) = (fitted w ++ [ArimaBackend])%list
          /\ USE_ARIMA = true
          /\ (snd outcome = [SlotSet "model" "arima"]
              \/ snd outcome = [SlotSet "model" "prophet_unavailable"])))
  /\ (snd outcome <> []
      <-> fitted (fst outcome) = (fitted w ++ [ArimaBackend])%list).
Proof.
  intros outcome.
  assert (H : (exists text, messages (fst outcome) = (messages w ++ [text])%list)
              /\ ((fitted (fst outcome) = fitted w /\ snd outcome = [])
                  \/ (fitted (fst outcome) = (fitted w ++ [ProphetBackend])%list
                      /\ snd outcome = [] /\ USE_PROPHET = true)
                  \/ (fitted (fst outcome) = (fitted w ++ [ArimaBackend])%list
                      /\ USE_ARIMA = true
                      /\ (snd outcome = [SlotSet "model" "arima"]
                          \/ snd outcome = [SlotSet "model" "prophet_unavailable"])))).
  { unfold outcome, ActionForecastKPI_run. cbv zeta.
    destruct (_ || _); [cbn; eauto |].
    match goal with |- context [forecast _ _ _ _ ?ts ?h ?k ?s ?m ?w0] =>
      destruct (forecast_effects ts h k s m w0) as (Hm & Hf) end.
    split; [exact Hm |]. intuition. }
  destruct H as (Hm & Hf). split; [exact Hm |]. split; [exact Hf |].
  destruct Hf as [(Hf & He) | [(Hf & He & _) | (Hf & _ & He)]].
  - rewrite Hf, He. split; [congruence |].
    intros E. symmetry in E. now apply app_one_not_self in E.
  - rewrite Hf, He. split; [congruence |].
    intros E. apply app_inv_head in E. discriminate E.
  - split; [intros _; exact Hf |].
    intros _. destruct He as [-> | ->]; discriminate.
Qed.

(** The forecast action asks for both slots before anything else; with
    both it runs [forecast] on the series of the lower-cased kpi and
    segment with a horizon that is at least 1, and a model slot that is
    missing or empty stands for "prophet". *)
Theorem forecast_run_slots (tracker : Tracker) (rows : DataFrame) (w : World) :
  let kpi_name := lower (slot_or (slot_kpi tracker) "") in
  let segment_name := lower (slot_or (slot_segment tracker) "") in
  let model_slot := lower (slot_or (slot_model tracker) "prophet") in
  let outcome :=
    ActionForecastKPI_run USE_PROPHET USE_ARIMA prophet_text arima_text
                          float_of_str float_of_int tracker rows w in
  (kpi_name = "" \/ segment_name = "" ->
   outcome
   = (utter_message "I need a KPI and segment before I can run a forecast." w,
      []))
  /\ (kpi_name <> "" -> segment_name <> "" ->
      exists horizon,
        1 <= horizon
        /\ outcome
           = forecast USE_PROPHET USE_ARIMA prophet_text arima_text
                      (slice_series (load_data rows) kpi_name segment_name)
                      horizon kpi_name segment_name model_slot w)
  /\ (slot_model tracker = None \/ slot_model tracker = Some "" ->
      model_slot = "prophet").
Proof.
  intros kpi_name segment_name model_slot outcome.
  unfold outcome, ActionForecastKPI_run. cbv zeta.
  fold kpi_name segment_name model_slot.
  split; [| split].
  - intros [E | E]; rewrite E; [| rewrite orb_true_r]; reflexivity.
  - intros Hk Hs. apply String.eqb_neq in Hk, Hs. rewrite Hk, Hs. cbn [orb].
    eexists. split; [| reflexivity].
    unfold ensure_positive_int.
    destruct (float _ _ _) as [f |]; [| lia]. destruct (ceil f); lia.
  - unfold model_slot. intros [-> | ->]; reflexivity.
Qed.

End ActionFacts.

Section QueryFacts.

Variable to_datetime : string -> parsed.
Variable format_2f : cell -> string.
Variable dash : string.

(** The loop of line 176 raises as soon as the selection holds a row
    without a value; otherwise it renders every row. *)
Lemma rows_text_spec (subset : Series) :
  rows_text format_2f subset
  = if existsb is_gap subset then Raise ValueError
    else Return (map (fun p => strftime_Ym (ds p) ++ ": " ++ format_2f (y p))
                     subset).
Proof.
  induction subset as [| p rest IH]; [reflexivity |].
  cbn [rows_text existsb map]. rewrite IH. unfold row_text, is_gap.
  destruct (y p); [reflexivity |]. cbn [orb].
  destruct (existsb _ rest); reflexivity.
Qed.

Lemma subseq_no_gap (subset ts : Series) :
  subseq subset ts -> existsb is_gap ts = false ->
  existsb is_gap subset = false.
Proof.
  intros Hs Hts. destruct (existsb is_gap subset) eqn:E; [| reflexivity].
  apply existsb_exists in E as (p & Hp & Hg).
  assert (Ht : existsb is_gap ts = true)
    by (apply existsb_exists; exists p; split;
        [eapply subseq_In; eassumption | assumption]).
  congruence.
Qed.

(** With both slots and a history, whenever the resolver returns a
    selection the query action either answers with the listing of that
    selection or raises at line 176, which it does exactly when the
    selection holds a row without a value: the reply of lines 170-174
    for an empty selection is never given.  When the resolver raises, so
    does the action. *)
Theorem query_run_outcomes (tracker : QueryTracker) (rows : DataFrame)
  (w : World) :
  let kpi_name := lower (slot_or (query_kpi tracker) "") in
  let segment_name := lower (slot_or (query_segment tracker) "") in
  let ts := slice_series (load_data rows) kpi_name segment_name in
  kpi_name <> "" -> segment_name <> "" -> ts <> [] ->
  ActionQueryKPI_run to_datetime format_2f dash tracker rows w
  = match filter_period to_datetime ts (query_period tracker) with
    | Raise e => Raise e
    | Return (subset, label) =>
        if existsb is_gap subset then Raise ValueError
        else
          Return (utter_message
                    (listing format_2f dash kpi_name segment_name subset label)
                    w, [])
    end.
Proof.
  intros kpi_name segment_name ts Hk Hs Hts.
  unfold ActionQueryKPI_run. cbv zeta. fold kpi_name segment_name ts.
  apply String.eqb_neq in Hk, Hs. rewrite Hk, Hs. cbn [orb].
  destruct ts as [| p0 r] eqn:Ets; [congruence |]. rewrite <- Ets in *.
  destruct (filter_period to_datetime ts (query_period tracker))
    as [[subset label] | e] eqn:E; [| reflexivity].
  destruct (filter_period_good to_datetime ts _ _ Hts E) as (_ & Hn & _).
  cbn [fst] in Hn. rewrite (is_empty_false subset Hn), rows_text_spec.
  destruct (existsb is_gap subset); reflexivity.
Qed.

(** A run of the query action that returns has uttered exactly one
    message, fitted no model and returned no event; and the run does
    return when the period has not the quarter shape and no row of the
    series is without a value. *)
Theorem query_run_effects (tracker : QueryTracker) (rows : DataFrame)
  (w : World) :
  (forall w' events,
     ActionQueryKPI_run to_datetime format_2f dash tracker rows w
     = Return (w', events) ->
     events = [] /\ fitted w' = fitted w
     /\ exists text, messages w' = (messages w ++ [text])%list)
  /\ ((forall p, query_period tracker = Some p ->
                 has_quarter_shape (lower (strip p)) = false) ->
      existsb is_gap
              (slice_series (load_data rows)
                            (lower (slot_or (query_kpi tracker) ""))
                            (lower (slot_or (query_segment tracker) "")))
      = false ->
      exists w', ActionQueryKPI_run to_datetime format_2f dash tracker rows w
                 = Return (w', [])).
Proof.
  unfold ActionQueryKPI_run. cbv zeta.
  set (ts := slice_series _ _ _). split.
  - intros w' events.
    destruct (_ || _); [intros [= <- <-]; cbn; eauto |].
    destruct ts as [| p0 r]; [intros [= <- <-]; cbn; eauto |].
    destruct (filter_period _ _ _) as [[subset label] | e]; [| discriminate].
    destruct (is_empty subset); [intros [= <- <-]; cbn; eauto |].
    destruct (rows_text format_2f subset); [| discriminate].
    intros [= <- <-]; cbn; eauto.
  - intros Hshape Hgap.
    destruct (_ || _); [eauto |].
    destruct ts as [| p0 r] eqn:Ets; [eauto |].
    destruct (filter_period_returns to_datetime (p0 :: r) _ Hshape)
      as ([subset label] & E).
    rewrite E.
    destruct (filter_period_good to_datetime (p0 :: r) _ _ ltac:(discriminate) E)
      as (Hsub & _).
    cbn [fst] in Hsub.
    destruct (is_empty subset); [eauto |].
    rewrite rows_text_spec, (subseq_no_gap _ _ Hsub Hgap). eauto.
Qed.

End QueryFacts.

(** ** The further statements at concrete inputs *)

Lemma filter_period_selection_witness :
  subseq (monthly 2024 [7; 8]) series8.
Proof.
  exact (proj1 (filter_period_selection to_datetime_iso series8 (Some "qtd")
                  (monthly 2024 [7; 8]) "2024-Q3 QTD" eq_refl)).
Defined.

Lemma filter_period_normal_form_witness :
  filter_period to_datetime_iso series8 (Some " Year To Date ")
  = filter_period to_datetime_iso series8 (Some "year to date").
Proof.
  apply filter_period_normal_form; [discriminate | discriminate | reflexivity].
Defined.

(** "last" wins over the quarter shape: the expression of C1 with the
    word "last" added does not raise. *)
Lemma last_word_wins_witness :
  exists m,
    1 <= m
    /\ filter_period to_datetime_iso series8 (Some "2024-Qx last")
       = Return (tail m series8, window_label (Z.min m (len series8))).
Proof.
  destruct (last_word_wins to_datetime_iso series8 "2024-Qx last")
    as (m & _ & Hm & H & _); [discriminate | reflexivity |].
  exists m. split; [exact Hm | exact H].
Defined.

Lemma resolve_date_witness :
  filter_period to_datetime_iso series8 (Some "2024-05")
  = Return (monthly 2024 [5], "2024-05").
Proof.
  refine (resolve_date to_datetime_iso series8 "2024-05"
            {| year := 2024; month := 5 |} _ _ eq_refl eq_refl);
    discriminate.
Defined.

Lemma to_date_nesting_witness :
  exists ysel qsel msel,
    ytd_rule series8 "ytd" = Some ysel
    /\ qtd_rule series8 "qtd" = Some qsel
    /\ mtd_rule series8 "mtd" = Some msel
    /\ subseq (fst msel) (fst qsel)
    /\ subseq (fst qsel) (fst ysel)
    /\ subseq (fst ysel) series8.
Proof. apply to_date_nesting. discriminate. Defined.

Lemma slice_series_regular_witness :
  exists lo hi,
    lo <= hi
    /\ map (fun p => ts_index (ds p))
           (slice_series (load_data gap_rows) "revenue" "smb")
       = month_range lo hi
    /\ len (slice_series (load_data gap_rows) "revenue" "smb") = hi - lo + 1
    /\ forall p, In p (slice_series (load_data gap_rows) "revenue" "smb") ->
         ts_index (ds p) = lo \/ ts_index (ds p) = hi -> y p <> NaN.
Proof.
  apply (slice_series_regular (load_data gap_rows) "revenue" "smb").
  discriminate.
Defined.

(** A request for "arima" with Prophet alone available is not served. *)
Lemma forecast_backend_choice_witness :
  forecast true false (fun _ _ _ _ => "prophet") (fun _ _ _ _ => "arima")
           series8 3 "revenue" "smb" "arima" empty_world
  = (utter_message
       "Forecasting libraries are not available on the server right now."
       empty_world, []).
Proof.
  refine (proj2 (proj2 (forecast_backend_choice true false _ _ series8 3
                          "revenue" "smb" "arima" empty_world _))
                eq_refl (or_introl _)); discriminate.
Defined.

Lemma query_run_outcomes_witness :
  ActionQueryKPI_run to_datetime_iso format_floor "-"
                     (revenue_query (Some "mtd")) gap_rows empty_world
  = Return ({| messages := ["REVENUE for Smb - 2024-03 MTD: 2024-03: 30"];
               fitted := [] |}, []).
Proof.
  refine (query_run_outcomes to_datetime_iso format_floor "-"
            (revenue_query (Some "mtd")) gap_rows empty_world _ _ _);
    discriminate.
Defined.

Lemma query_run_effects_witness :
  exists w',
    ActionQueryKPI_run to_datetime_iso format_floor "-"
                       (revenue_query (Some "last 2 months")) series_rows
                       empty_world
    = Return (w', []).
Proof.
  refine (proj2 (query_run_effects to_datetime_iso format_floor "-"
                   (revenue_query (Some "last 2 months")) series_rows
                   empty_world) _ eq_refl).
  intros p E. injection E as <-. reflexivity.
Defined.

(** On the history with a gap the default window holds the row of
    February, which has no value, and the query action raises. *)
Example query_run_raises_on_gap :
  ActionQueryKPI_run to_datetime_iso format_floor "-"
                     (revenue_query None) gap_rows empty_world
  = Raise ValueError.
Proof. reflexivity. Qed.
